(** * Binarized neural networks: data pipeline, metaplastic optimizer, Bayesian trainer

    A shallow embedding of
    - [dataloader/gpuLoading.py]  (GPUTensorDataset, GPUDataLoader),
    - [optimizer/metaplasticadam.py]  (MetaplasticAdam),
    - [trainer/bayesTrainer.py] and [trainer/gpuTrainer.py]  (BayesTrainer.__init__, predict),
    followed by the properties of the specification that concern them.

    Conventions.
    - Python exceptions are values of [exn]; a call that may raise returns a
      [result].  The methods of the loader and [predict] return the mutated
      object next to their result, also when they raise; of a call of the
      optimizer's [step] that raises, only the exception is kept.
    - Floating-point scalars are read as real numbers ([R]): the models give
      the arithmetic the source writes, without rounding, overflow or NaN.
      Where Python raises on a scalar ([math.sqrt] of a negative number, a
      division by zero) the models raise as well.
    - A random draw ([torch.randperm], [torch.bernoulli]) is an argument of the
      function that consumes it. *)

From Stdlib Require Import Reals Lra.
From stdpp Require Import gmap strings list.

(** ** Exceptions and results *)

Inductive exn : Type :=
  | StopIteration
  | IndexError
  | ZeroDivisionError
  | AttributeError (attr : string)
  | KeyError (key : string)
  | ValueError (msg : string)
  | TypeError (msg : string)
  | RuntimeError (msg : string).

Inductive result (X : Type) : Type :=
  | Ok (x : X)
  | Raise (e : exn).
Arguments Ok {X} x.
Arguments Raise {X} e.

#[global] Instance result_bind : MBind result := λ X Y k r,
  match r with
  | Ok x => k x
  | Raise e => Raise e
  end.
#[global] Instance result_ret : MRet result := λ X x, Ok x.

(** Advanced indexing [t[idx]] along the first axis of a tensor whose first
    axis is the list [l]: every index has to be in range. *)
Definition gather {X} (l : list X) (idx : list nat) : result (list X) :=
  match mapM (λ i, l !! i) idx with
  | Some k => Ok k
  | None => Raise IndexError
  end.

(** ** dataloader/gpuLoading.py *)

Section Loader.
(** The scalar type of the features. *)
Context {A : Type}.

(** A tensor of shape [length rows :: item_shape], kept as the list of its
    slices along the first axis, each slice flattened in row-major order
    (what [t.view(t.shape[0], -1)] exposes). *)
Record tensor : Type := Tensor {
  item_shape : list nat;
  rows : list (list A)
}.

Definition numel_item (t : tensor) : nat := foldr Nat.mul 1 (item_shape t).

(** Every slice holds as many scalars as the shape says. *)
Definition tensor_wf (t : tensor) : Prop :=
  Forall (λ r, length r = numel_item t) (rows t).

(** class GPUTensorDataset: [data] and [targets] (a LongTensor of labels). *)
Record GPUTensorDataset : Type := Dataset {
  data : tensor;
  targets : list Z
}.

(** GPUTensorDataset.__len__ *)
Definition dataset_len (d : GPUTensorDataset) : nat := length (rows (data d)).

(** GPUTensorDataset.__getitem__ with a tensor of indices. *)
Definition getitem (d : GPUTensorDataset) (idx : list nat)
  : result (tensor * list Z) :=
  x ← gather (rows (data d)) idx;
  y ← gather (targets d) idx;
  Ok (Tensor (item_shape (data d)) x, y).

(** class GPUDataLoader.  [index], [perm] and [reference] are attributes
    that exist only once [__iter__], respectively a transform, has run. *)
Record GPUDataLoader : Type := Loader {
  dataset : GPUTensorDataset;
  batch_size : nat;
  shuffle : bool;
  drop_last : bool;
  index : option nat;
  perm : option (list nat);
  reference : option tensor
}.

(** GPUDataLoader.__init__ (shuffle=True, drop_last=True by default). *)
Definition GPUDataLoader_init (d : GPUTensorDataset) (b : nat)
    (sh dl : bool) : GPUDataLoader :=
  Loader d b sh dl None None None.

Definition set_batch_size (b : nat) (ld : GPUDataLoader) : GPUDataLoader :=
  Loader (dataset ld) b (shuffle ld) (drop_last ld) (index ld) (perm ld)
         (reference ld).

Definition set_index (i : nat) (ld : GPUDataLoader) : GPUDataLoader :=
  Loader (dataset ld) (batch_size ld) (shuffle ld) (drop_last ld) (Some i)
         (perm ld) (reference ld).

Definition set_data (t : tensor) (ld : GPUDataLoader) : GPUDataLoader :=
  Loader (Dataset t (targets (dataset ld))) (batch_size ld) (shuffle ld)
         (drop_last ld) (index ld) (perm ld) (reference ld).

Definition set_reference (t : tensor) (ld : GPUDataLoader) : GPUDataLoader :=
  Loader (dataset ld) (batch_size ld) (shuffle ld) (drop_last ld) (index ld)
         (perm ld) (Some t).

(** GPUDataLoader.__iter__.  [draw] is what [torch.randperm(len(dataset))]
    returns at this call; it is looked at only when [shuffle] is set. *)
Definition __iter__ (draw : list nat) (ld : GPUDataLoader) : GPUDataLoader :=
  Loader (dataset ld) (batch_size ld) (shuffle ld) (drop_last ld) (Some 0)
         (Some (if shuffle ld then draw else seq 0 (dataset_len (dataset ld))))
         (reference ld).

(** GPUDataLoader.__next__ *)
Definition __next__ (ld : GPUDataLoader)
  : GPUDataLoader * result (tensor * list Z) :=
  match index ld with
  | None => (ld, Raise (AttributeError "index"))
  | Some i =>
    let n := dataset_len (dataset ld) in
    if bool_decide (n ≤ i) then (ld, Raise StopIteration)
    else if bool_decide (n < i + batch_size ld) && drop_last ld
    then (ld, Raise StopIteration)
    else
      let ld1 :=
        if bool_decide (n < i + batch_size ld) && negb (drop_last ld)
        then set_batch_size (n - i) ld else ld in
      match perm ld1 with
      | None => (ld1, Raise (AttributeError "perm"))
      | Some p =>
        match getitem (dataset ld1) (take (batch_size ld1) (drop i p)) with
        | Raise e => (ld1, Raise e)
        | Ok batch => (set_index (i + batch_size ld1) ld1, Ok batch)
        end
      end
  end.

(** GPUDataLoader.__len__: [len(self.dataset)//self.batch_size]. *)
Definition __len__ (ld : GPUDataLoader) : result nat :=
  if bool_decide (batch_size ld = 0)
  then Raise ZeroDivisionError
  else Ok (dataset_len (dataset ld) `div` batch_size ld).

(** The loop [for batch in it], on an iterator [it] that [__iter__] has
    returned: [__next__] until StopIteration.  With [batch_size = 0] the loop
    of the source does not end, so the model counts calls: [None] is "still
    running after [fuel] calls". *)
Fixpoint drain (fuel : nat) (ld : GPUDataLoader)
  : option (GPUDataLoader * result (list (tensor * list Z))) :=
  match fuel with
  | 0 => None
  | S fuel' =>
    match __next__ ld with
    | (ld', Ok b) =>
      match drain fuel' ld' with
      | Some (ld'', Ok bs) => Some (ld'', Ok (b :: bs))
      | other => other
      end
    | (ld', Raise StopIteration) => Some (ld', Ok [])
    | (ld', Raise e) => Some (ld', Raise e)
    end
  end.

(** One traversal: [for batch in loader]. *)
Definition traverse (fuel : nat) (draw : list nat) (ld : GPUDataLoader) :=
  drain fuel (__iter__ draw ld).

(** Number of samples in a batch. *)
Definition batch_len (b : tensor * list Z) : nat := length (rows (fst b)).

(** *** The two transforms

    Both are generators: nothing runs at the call, and each resumption runs
    the loop body for the next loop value, up to [yield self].  The value
    yielded is the loader itself (one object, not a copy), here the loader
    state at the yield. *)

(** The first three lines of both loop bodies:
    [if "reference" in self.__dict__: self.dataset.data = self.reference]
    then [self.reference = self.dataset.data]. *)
Definition restore_reference (ld : GPUDataLoader) : GPUDataLoader :=
  let ld1 :=
    match reference ld with
    | Some r => set_data r ld
    | None => ld
    end in
  set_reference (data (dataset ld1)) ld1.

(** [t.view(t.shape[0], -1)[:, perm].view(t.shape)].  The first [view]
    cannot infer [-1] for a tensor without elements along the first axis;
    the column index raises on an index out of range; the last [view] needs
    as many scalars as the shape holds. *)
Definition permute_pixels (t : tensor) (p : list nat) : result tensor :=
  match rows t with
  | [] => Raise (RuntimeError "cannot reshape tensor of 0 elements")
  | _ =>
    cols ← mapM (λ r, gather r p) (rows t);
    if bool_decide (length p = numel_item t)
    then Ok (Tensor (item_shape t) cols)
    else Raise (RuntimeError "shape is invalid for input size")
  end.

(** Loop body of [permute_dataset] for the permutation [p]. *)
Definition permute_dataset_body (p : list nat) (ld : GPUDataLoader)
  : GPUDataLoader * result () :=
  let ld2 := restore_reference ld in
  match permute_pixels (data (dataset ld2)) p with
  | Raise e => (ld2, Raise e)
  | Ok t => (set_data t ld2, Ok ())
  end.

(** Loop body of [class_incremental_dataset] for the task [i]: after the
    reference is restored, the body goes straight to [yield self]. *)
Definition class_incremental_body (i : nat) (ld : GPUDataLoader)
  : GPUDataLoader * result () :=
  (restore_reference ld, Ok ()).

(** Resuming a generator whose loop values still to come are [pending]. *)
Definition resume {X} (body : X → GPUDataLoader → GPUDataLoader * result ())
    (pending : list X) (ld : GPUDataLoader)
  : GPUDataLoader * result (list X) :=
  match pending with
  | [] => (ld, Raise StopIteration)
  | x :: rest =>
    match body x ld with
    | (ld', Ok _) => (ld', Ok rest)
    | (ld', Raise e) => (ld', Raise e)
    end
  end.

(** [for task in generator: use(task)]: the loader as it is at each yield,
    and the loader and outcome when the loop ends.  [use] is what the
    caller does to the yielded loader before it resumes the generator. *)
Fixpoint for_each {X} (body : X → GPUDataLoader → GPUDataLoader * result ())
    (use : GPUDataLoader → GPUDataLoader) (pending : list X)
    (ld : GPUDataLoader)
  : list GPUDataLoader * (GPUDataLoader * result ()) :=
  match pending with
  | [] => ([], (ld, Ok ()))
  | x :: rest =>
    match body x ld with
    | (ld', Ok _) =>
      let '(ys, fin) := for_each body use rest (use ld') in
      (ld' :: ys, fin)
    | (ld', Raise e) => ([], (ld', Raise e))
    end
  end.

(** GPUDataLoader.permute_dataset *)
Definition permute_dataset (use : GPUDataLoader → GPUDataLoader)
    (permutations : list (list nat)) (ld : GPUDataLoader) :=
  for_each permute_dataset_body use permutations ld.

(** GPUDataLoader.class_incremental_dataset: [for i in range(n_tasks)]. *)
Definition class_incremental_dataset (use : GPUDataLoader → GPUDataLoader)
    (n_tasks : Z) (ld : GPUDataLoader) :=
  for_each class_incremental_body use (seq 0 (Z.to_nat n_tasks)) ld.

(** The untransformed features a transform starts from. *)
Definition pristine (ld : GPUDataLoader) : tensor :=
  default (data (dataset ld)) (reference ld).

(** What [__iter__] guarantees of [perm] on a dataset whose two tensors have
    the same length: as many indices as samples, all in range. *)
Definition in_range (d : GPUTensorDataset) (p : list nat) : Prop :=
  length (targets d) = dataset_len d ∧
  length p = dataset_len d ∧
  Forall (λ j, j < dataset_len d) p.

(** The index windows of [k] successive full batches from the cursor [i]. *)
Fixpoint windows (k b i : nat) (p : list nat) : list (list nat) :=
  match k with
  | 0 => []
  | S k' => take b (drop i p) :: windows k' b (i + b) p
  end.

End Loader.
Arguments tensor : clear implicits.
Arguments GPUTensorDataset : clear implicits.
Arguments GPUDataLoader : clear implicits.

(** ** dataloader/gpuLoading.py: GPULoading.batching;
       dataloader/datasetLoading.py: task_selection *)

Section Loading.
(** [A]: the scalars of the features; [Y]: the scalars of the label arrays as
    decoded.  [to_long] is the conversion of a label to a LongTensor entry
    ([torch.Tensor(y).type(torch.LongTensor)]) and [to_float] is [.float()].
    [T] stands for [torch.utils.data.DataLoader], whose constructor
    [DataLoader(dataset, batch_size, shuffle, drop_last)] is not part of the
    repository. *)
Context {A Y T : Type}.
Context (to_long : Y → Z) (to_float : A → A).
Context (DataLoader : GPUTensorDataset A → nat → bool → bool → result T).

(** class GPULoading *)
Record GPULoading : Type := Loading {
  padding : nat;
  device : string;
  as_dataset : bool
}.

(** What [batching] returns for each of the two sets. *)
Inductive any_loader : Type :=
  | Gpu (ld : GPUDataLoader A)
  | Torch (dl : T).

(** GPULoading.batching.  The test loader gets the whole test set as its
    batch size; built without [drop_last], it has the default of
    [GPUDataLoader] (True) or of [DataLoader] (False). *)
Definition batching (self : GPULoading) (train_x : tensor A)
    (train_y : list Y) (test_x : tensor A) (test_y : list Y)
    (batch_size0 : nat) : result (any_loader * any_loader) :=
  let train_dataset := Dataset train_x (to_long <$> train_y) in
  let test_dataset :=
    Dataset (Tensor (item_shape test_x)
                    ((λ r : list A, to_float <$> r) <$> rows test_x))
            (to_long <$> test_y) in
  let max_batch_size := dataset_len test_dataset in
  if negb (as_dataset self)
  then
    Ok (Gpu (GPUDataLoader_init train_dataset batch_size0 true true),
        Gpu (GPUDataLoader_init test_dataset max_batch_size true true))
  else
    train ← DataLoader train_dataset batch_size0 true true;
    test ← DataLoader test_dataset max_batch_size true false;
    Ok (Torch train, Torch test).

(** GPUTensorDataset.__getitem__ with an integer index: the sample (its
    shape and its scalars) and its label. *)
Definition getitem_at (d : GPUTensorDataset A) (i : nat)
  : result (list nat * list A * Z) :=
  match rows (data d) !! i with
  | None => Raise IndexError
  | Some r =>
    match targets d !! i with
    | None => Raise IndexError
    | Some y => Ok (item_shape (data d), r, y)
    end
  end.

(** The loading functions of datasetLoading.py ([mnist], [fashion_mnist],
    [cifar10], [cifar100]) read files and download what is missing; each is
    taken as the pair of loaders it returns for a batch size, or the
    exception it raises. *)
Context (mnist fashion_mnist cifar10 cifar100
           : nat → result (GPUDataLoader A * GPUDataLoader A)).

(** task_selection: the train loaders, the test loaders, the shape of a
    sample and the number of classes. *)
Definition task_selection (task : string) (batch_size0 : nat)
  : result (list (GPUDataLoader A) * list (GPUDataLoader A)
            * list nat * nat) :=
  '(train, train_loader, test_loader) ←
    (if bool_decide (task = "Sequential")
     then
       '(train, test) ← mnist batch_size0;
       '(fashion_train, fashion_test) ← fashion_mnist batch_size0;
       Ok (train, [train; fashion_train], [test; fashion_test])
     else if bool_decide (task = "MNIST") || bool_decide (task = "PermutedMNIST")
     then
       '(train, test) ← mnist batch_size0;
       Ok (train, [train], [test])
     else if bool_decide (task = "CIFAR10")
             || bool_decide (task = "CIFAR10INCREMENTAL")
     then
       '(train, test) ← cifar10 batch_size0;
       Ok (train, [train], [test])
     else if bool_decide (task = "CIFAR100")
             || bool_decide (task = "CIFAR100INCREMENTAL")
     then
       '(train, test) ← cifar100 batch_size0;
       Ok (train, [train], [test])
     else Raise (ValueError "Task {task} is not implemented."));
  '(shape0, _, _) ← getitem_at (dataset train) 0;
  let target_size := length (remove_dups (targets (dataset train))) in
  Ok (train_loader, test_loader, shape0, target_size).

End Loading.

(** ** optimizer/metaplasticadam.py *)

#[global] Instance Rlt_decision (x y : R) : Decision (x < y)%R := Rlt_dec x y.
#[global] Instance Rle_decision (x y : R) : Decision (x <= y)%R := Rle_dec x y.
#[global] Instance R_eq_decision : EqDecision R := Req_dec_T.

Section Optimizer.
Local Open Scope R_scope.

(** A dense tensor of scalars: its shape, and its elements in row-major
    order.  The element-wise operations of the source act on [values];
    [p.grad] and the state tensors of a parameter have the shape of
    [p.data] and are kept as their elements alone. *)
Record dense : Type := Dense {
  shape : list nat;
  values : list R
}.

(** [t.dim()] *)
Definition dim (t : dense) : nat := length (shape t).

(** [torch.zeros_like(t)] *)
Definition zeros_like (t : dense) : list R := replicate (length (values t)) 0.

(** [torch.sign] *)
Definition sign (x : R) : R :=
  if decide (0 < x) then 1 else if decide (x < 0) then -1 else 0.

(** [torch.where(c, a, b)] *)
Definition where_ (c : list bool) (a b : list R) : list R :=
  zip_with (λ (ci : bool) ab, if ci then ab.1 else ab.2) c (zip a b).

(** [t.addcdiv_(value, t1, t2)]: [t + value * (t1 / t2)] *)
Definition addcdiv (t : list R) (value : R) (t1 t2 : list R) : list R :=
  zip_with (λ x q, x + value * q) t (zip_with Rdiv t1 t2).

Record gradient : Type := Gradient {
  g_values : list R;
  is_sparse : bool
}.

(** A parameter [p]: [p.data] and [p.grad] (None when [p] took no part in
    the backward pass). *)
Record param : Type := Param {
  p_data : dense;
  p_grad : option gradient
}.

(** The non-empty [self.state[p]]. *)
Record param_state : Type := State {
  step : nat;
  exp_avg : list R;
  exp_avg_sq : list R;
  max_exp_avg_sq : option (list R)
}.

(** The options of a parameter group ([defaults]). *)
Record hyper : Type := Hyper {
  lr : R;
  betas : R * R;
  metaplasticity : R;
  eps : R;
  weight_decay : R;
  amsgrad : bool
}.

(** A parameter group.  [self.state[p]] is kept next to [p]; [None] is the
    empty dict a parameter has before its first gradient. *)
Record param_group : Type := Group {
  options : hyper;
  params : list (param * option param_state)
}.

Record optimizer : Type := Optimizer {
  param_groups : list param_group
}.

(** What one parameter's pass through the loop body of [step] computes on
    the way to the update: [step_size], [denom], and the momentum tensor
    handed to [addcdiv_]. *)
Record step_info : Type := Info {
  step_size : R;
  denom : list R;
  momentum : list R
}.

(** The loop body of [MetaplasticAdam.step] for the parameter [p] of a
    group with the options [h]. *)
Definition step_param_full (h : hyper) (p : param) (st : option param_state)
  : result (param * option param_state * option step_info) :=
  match p_grad p with
  | None => Ok (p, st, None)
  | Some gr =>
    if is_sparse gr
    then Raise (RuntimeError "Adam does not support sparse gradients, please consider SparseAdam instead")
    else
      (* State initialization *)
      let st0 :=
        match st with
        | Some s => s
        | None =>
          State 0 (zeros_like (p_data p)) (zeros_like (p_data p))
                (if amsgrad h then Some (zeros_like (p_data p)) else None)
        end in
      let beta1 := (betas h).1 in
      let beta2 := (betas h).2 in
      let t := S (step st0) in
      let grad :=
        if decide (weight_decay h ≠ 0)
        then zip_with (λ g x, g + weight_decay h * x)
                      (g_values gr) (values (p_data p))
        else g_values gr in
      (* Decay the first and second moment running average coefficient *)
      let m := zip_with (λ a g, a * beta1 + (1 - beta1) * g)
                        (exp_avg st0) grad in
      let v := zip_with (λ a g, a * beta2 + (1 - beta2) * (g * g))
                        (exp_avg_sq st0) grad in
      '(mx, dn) ←
        (if amsgrad h
         then
           match max_exp_avg_sq st0 with
           | None => Raise (KeyError "max_exp_avg_sq")
           | Some mx0 =>
             let mx1 := zip_with Rmax mx0 v in
             Ok (Some mx1, (λ x, sqrt x + eps h) <$> mx1)
           end
         else Ok (max_exp_avg_sq st0, (λ x, sqrt x + eps h) <$> v));
      let bias_correction1 := 1 - beta1 ^ t in
      let bias_correction2 := 1 - beta2 ^ t in
      (* [_dispatch_sqrt] of a Python float is [math.sqrt], which raises on a
         negative number; the division is a division of Python floats *)
      if decide (bias_correction2 < 0)
      then Raise (ValueError "math domain error")
      else if decide (bias_correction1 = 0)
      then Raise ZeroDivisionError
      else
      let ss := lr h * sqrt bias_correction2 / bias_correction1 in
      let binary_weight_before_update := sign <$> values (p_data p) in
      let condition_consolidation :=
        zip_with (λ b a, bool_decide (b * a > 0))
                 binary_weight_before_update m in
      let mom :=
        if decide (dim (p_data p) = 1%nat)
        then m
        else
          let decayed_exp_avg :=
            zip_with Rmult
              ((λ x, 1 - tanh (metaplasticity h * Rabs x) ^ 2)
                 <$> values (p_data p))
              m in
          where_ condition_consolidation decayed_exp_avg m in
      Ok (Param (Dense (shape (p_data p))
                       (addcdiv (values (p_data p)) (- ss) mom dn))
                (Some (Gradient grad false)),
          Some (State t m v mx),
          Some (Info ss dn mom))
  end.

Definition step_param (h : hyper) (slot : param * option param_state)
  : result (param * option param_state) :=
  '(p', st', _) ← step_param_full h slot.1 slot.2;
  Ok (p', st').

(** [loss = closure()] when a closure is given; the closure may write the
    gradients. *)
Definition call_closure (closure : option (optimizer → optimizer * R))
    (opt : optimizer) : optimizer * option R :=
  match closure with
  | Some f => let '(opt', loss) := f opt in (opt', Some loss)
  | None => (opt, None)
  end.

(** MetaplasticAdam.step *)
Definition MetaplasticAdam_step
    (closure : option (optimizer → optimizer * R)) (opt : optimizer)
  : result (optimizer * option R) :=
  let '(opt1, loss) := call_closure closure opt in
  groups ← mapM (λ g, slots ← mapM (step_param (options g)) (params g);
                      Ok (Group (options g) slots))
                (param_groups opt1);
  Ok (Optimizer groups, loss).

(** The constructor of the base class, [torch.optim.Optimizer.__init__],
    is not part of the repository. *)
Context (Optimizer_init : list param → hyper → result optimizer).

(** MetaplasticAdam.__init__ *)
Definition MetaplasticAdam_init (params0 : list param) (lr0 : R)
    (betas0 : R * R) (metaplasticity0 eps0 weight_decay0 : R)
    (amsgrad0 : bool) : result optimizer :=
  if negb (bool_decide (0 <= lr0))
  then Raise (ValueError "Invalid learning rate: {}")
  else if negb (bool_decide (0 <= eps0))
  then Raise (ValueError "Invalid epsilon value: {}")
  else if negb (bool_decide (0 <= betas0.1) && bool_decide (betas0.1 < 1))
  then Raise (ValueError "Invalid beta parameter at index 0: {}")
  else if negb (bool_decide (0 <= betas0.2) && bool_decide (betas0.2 < 1))
  then Raise (ValueError "Invalid beta parameter at index 1: {}")
  else
    let defaults :=
      Hyper lr0 betas0 metaplasticity0 eps0 weight_decay0 amsgrad0 in
    Optimizer_init params0 defaults.

End Optimizer.

(** ** trainer/gpuTrainer.py, trainer/bayesTrainer.py *)

(** Configuration values: integers, strings, sequences (a list, a tuple or
    a set) and dicts with string keys. *)
#[warnings="-register-all"]
Inductive value : Type :=
  | VInt (z : Z)
  | VStr (s : string)
  | VSeq (l : list value)
  | VDict (d : gmap string value).

(** [key in s] for two strings: [key] is a substring of [s]. *)
Fixpoint str_contains (key s : string) : bool :=
  String.prefix key s ||
  match s with
  | EmptyString => false
  | String _ s' => str_contains key s'
  end.

(** [key in l] for a string and a list, tuple or set: an element is equal to
    [key]. *)
Definition seq_contains (key : string) (l : list value) : bool :=
  existsb (λ v, match v with
                | VStr s => bool_decide (s = key)
                | _ => false
                end) l.

(** [self.optimizer], as far as the trainer looks into it: the entries of
    [self.optimizer.state] that are tensors, by name.  (Its
    [param_groups[0]['params']] are the parameters of the model.) *)
Record optim : Type := Optim {
  state : gmap string (list R)
}.

Section Trainer.
Local Open Scope R_scope.

(** The collaborators, as black boxes: the model with [forward] and
    [eval()]; [torch.nn.utils.vector_to_parameters], which writes a vector
    into the parameters of the model; the optimizer parameters, the loss,
    the device, the schedulers; and [torch.bernoulli], whose draw number [k]
    in a call of [predict] depends on the probabilities. *)
Context {Model input output OptParams Criterion Device Scheduler : Type}.
Context (forward : Model → input → output).
Context (eval_mode : Model → Model).
Context (vector_to_parameters : list R → Model → Model).
Context (bernoulli : nat → list R → list R).

(** The attributes of a trainer ([self.__dict__]). *)
Inductive attr : Type :=
  | AValue (v : value)
  | AModel (m : Model)
  | AOptimizer (o : optim)
  | ACriterion (c : Criterion)
  | ADevice (d : Device)
  | AHistory (l : list (list R))
  | AScheduler (s : Scheduler).

(** A keyword argument: a configuration value, or a scheduler class. *)
Inductive kwarg : Type :=
  | KValue (v : value)
  | KScheduler (cls : optim → gmap string value → result Scheduler).

(** GPUTrainer.__init__ on the object [self]. *)
Definition GPUTrainer_init (self : gmap string attr) (model : Model)
    (optimizer : Model → OptParams → result optim)
    (optimizer_parameters : OptParams) (criterion : Criterion)
    (device : Device) (kwargs : gmap string kwarg)
  : result (gmap string attr) :=
  let self := <["model" := AModel model]> self in
  o ← optimizer model optimizer_parameters;
  let self := <["optimizer" := AOptimizer o]> self in
  let self := <["criterion" := ACriterion criterion]> self in
  let self := <["device" := ADevice device]> self in
  let self := <["training_accuracy" := AHistory []]> self in
  let self := <["testing_accuracy" := AHistory []]> self in
  let self := <["mean_testing_accuracy" := AHistory []]> self in
  (* Scheduler addition *)
  match kwargs !! "scheduler" with
  | None => Ok self
  | Some scheduler =>
    match kwargs !! "scheduler_parameters" with
    | None => Raise (KeyError "scheduler_parameters")
    | Some scheduler_parameters =>
      match scheduler, scheduler_parameters with
      | KScheduler cls, KValue (VDict d) =>
        sch ← cls o d;
        Ok (<["scheduler" := AScheduler sch]> self)
      | _, _ => Raise (TypeError "scheduler")
      end
    end
  end.

(** BayesTrainer.__init__ on the object [self]. *)
Definition BayesTrainer_init (self : gmap string attr) (model : Model)
    (optimizer : Model → OptParams → result optim)
    (optimizer_parameters : OptParams) (criterion : Criterion)
    (device : Device) (kwargs : gmap string kwarg)
  : result (gmap string attr) :=
  match kwargs !! "training_parameters" with
  | None => Raise (KeyError "training_parameters")
  | Some (KValue (VDict training_parameters)) =>
    match training_parameters !! "test_mcmc_samples" with
    | Some v =>
      GPUTrainer_init (<["test_mcmc_samples" := AValue v]> self) model
                      optimizer optimizer_parameters criterion device kwargs
    | None =>
      Raise (ValueError "BayesTrainer needs test_mcmc_samples to be defined in training_parameters (number of samples to use for the monte carlo prediction)")
    end
  | Some (KValue (VSeq training_parameters)) =>
    if seq_contains "test_mcmc_samples" training_parameters
    then Raise (TypeError "indices must be integers or slices, not str")
    else
      Raise (ValueError "BayesTrainer needs test_mcmc_samples to be defined in training_parameters (number of samples to use for the monte carlo prediction)")
  | Some (KValue (VStr training_parameters)) =>
    if str_contains "test_mcmc_samples" training_parameters
    then Raise (TypeError "string indices must be integers")
    else
      Raise (ValueError "BayesTrainer needs test_mcmc_samples to be defined in training_parameters (number of samples to use for the monte carlo prediction)")
  | Some _ => Raise (TypeError "argument is not iterable")
  end.

(** [torch.sigmoid] *)
Definition sigmoid (x : R) : R := 1 / (1 + exp (- x)).

(** A tensor entry of [self.optimizer.state]; the state is a defaultdict, and
    arithmetic on the empty dict it gives for a missing key is a
    TypeError. *)
Definition state_tensor (o : optim) (key : string) : result (list R) :=
  match state o !! key with
  | Some t => Ok t
  | None => Raise (TypeError "unsupported operand type: dict")
  end.

(** BayesTrainer.monte_carlo_prediction, on the model: for each noise
    vector [n], write [2*n - 1] into the parameters, then one forward pass.
    Returns the model as the last write left it, and the predictions. *)
Fixpoint monte_carlo_prediction (m : Model) (inputs : input)
    (noise : list (list R)) : Model * list output :=
  match noise with
  | [] => (m, [])
  | n :: rest =>
    let m1 := vector_to_parameters ((λ x, 2 * x - 1) <$> n) m in
    let prediction := forward m1 inputs in
    let '(m2, predictions) := monte_carlo_prediction m1 inputs rest in
    (m2, prediction :: predictions)
  end.

(** One pass of the sampling loop of [predict]:
    [torch.bernoulli(torch.sigmoid(2*self.optimizer.state["lambda"]))]. *)
Definition sample_noise (o : optim) (k : nat) : result (list R) :=
  match state_tensor o "lambda" with
  | Ok lambda => Ok (bernoulli k ((λ x, sigmoid (2 * x)) <$> lambda))
  | Raise e => Raise e
  end.

(** The fallback of [predict]:
    [torch.where(mu <= 0, torch.zeros_like(mu), torch.ones_like(mu))]. *)
Definition map_noise (o : optim) : result (list R) :=
  match state_tensor o "mu" with
  | Ok mu => Ok ((λ x, if bool_decide (x <= 0) then 0 else 1) <$> mu)
  | Raise e => Raise e
  end.

(** BayesTrainer.predict *)
Definition predict (self : gmap string attr) (inputs : input) (n_samples : Z)
  : gmap string attr * result (list output) :=
  match self !! "model" with
  | Some (AModel m) =>
    let m := eval_mode m in
    let self := <["model" := AModel m]> self in
    match self !! "optimizer" with
    | Some (AOptimizer o) =>
      let noise : result (list (list R)) :=
        noise ← mapM (sample_noise o) (seq 0 (Z.to_nat n_samples));
        if bool_decide (length noise = 0%nat)
        then n ← map_noise o; Ok (noise ++ [n])
        else Ok noise in
      match noise with
      | Raise e => (self, Raise e)
      | Ok noise =>
        let '(m', predictions) := monte_carlo_prediction m inputs noise in
        (<["model" := AModel m']> self, Ok predictions)
      end
    | _ => (self, Raise (AttributeError "optimizer"))
    end
  | _ => (self, Raise (AttributeError "model"))
  end.

(** The sentence of the specification on the fallback of [predict]:
    "positive-or-zero maps to 1, negative maps to 0, then the same
    {0,1} -> {-1,+1} substitution". *)
Definition spec_map_weights (mu : list R) : list R :=
  (λ x, 2 * (if bool_decide (0 <= x) then 1 else 0) - 1) <$> mu.

End Trainer.

(** The hyperparameter ranges of the specification, negated: [lr >= 0],
    [eps >= 0], [0 <= beta1 < 1], [0 <= beta2 < 1]. *)
Definition out_of_range (lr0 eps0 : R) (betas0 : R * R) : Prop :=
  (lr0 < 0 ∨ eps0 < 0 ∨ ¬ (0 <= betas0.1 < 1) ∨ ¬ (0 <= betas0.2 < 1))%R.

(** A group with the default options of the constructor (and
    [metaplasticity = 1]), with or without the AMS variant. *)
Definition default_options (ams : bool) : hyper :=
  Hyper (1 / 1000)%R (9 / 10, 999 / 1000)%R 1%R (1 / 100000000)%R 0%R ams.

(** A 1x2 weight and a bias of 2 elements, both with a dense gradient and no
    state yet. *)
Definition weight0 : param :=
  Param (Dense [1; 2]%nat [1 / 2; - (1 / 2)]%R)
        (Some (Gradient [1; 1]%R false)).

Definition bias0 : param :=
  Param (Dense [2]%nat [1 / 2; - (1 / 2)]%R) (Some (Gradient [1; 1]%R false)).

Definition optimizer0 : optimizer :=
  Optimizer [Group (default_options false) [(weight0, None); (bias0, None)]].

(** A model that is its parameter vector: [forward] returns the parameters,
    [eval()] changes nothing, writing a vector replaces them, and a
    Bernoulli draw returns the probabilities it is given. *)
Definition echo_forward (m : list R) (_ : ()) : list R := m.
Definition echo_eval (m : list R) : list R := m.
Definition echo_write (v : list R) (_ : list R) : list R := v.
Definition echo_bernoulli (_ : nat) (probs : list R) : list R := probs.

(** A trainer on this model whose optimizer has the posterior mean
    [mu = [0]]. *)
Definition trainer0 : gmap string (@attr (list R) () () ()) :=
  <["model" := AModel [0%R]]>
    (<["optimizer" := AOptimizer (Optim {["mu" := [0%R]]})]> ∅).

(** Keyword arguments with and without [test_mcmc_samples]. *)
Definition kwargs_with_samples : gmap string (@kwarg ()) :=
  {["training_parameters" :=
      KValue (VDict {["test_mcmc_samples" := VInt 1]})]}.

Definition kwargs_without_samples : gmap string (@kwarg ()) :=
  {["training_parameters" := KValue (VDict {["n_epochs" := VInt 1]})]}.

(** A trainer whose optimizer has the natural parameter [lambda = [0]], and
    one with no model. *)
Definition trainer1 : gmap string (@attr (list R) () () ()) :=
  <["model" := AModel [0%R]]>
    (<["optimizer" := AOptimizer (Optim {["lambda" := [0%R]]})]> ∅).

Definition trainer_no_model : gmap string (@attr (list R) () () ()) :=
  {["optimizer" := AOptimizer (Optim {["lambda" := [0%R]]})]}.

(** Keyword arguments with a scheduler class and no parameters for it, and
    with [training_parameters] that is a number. *)
Definition kwargs_scheduler_only : gmap string (@kwarg ()) :=
  {["scheduler" := KScheduler (λ _ _, Ok ())]}.



(** An optimizer class that returns an optimizer with [mu = [0]]. *)
Definition mu_optimizer (_ : list R) (_ : ()) : result optim :=
  Ok (Optim {["mu" := [0%R]]}).

(** Two values the loop body of [step] starts from, named for the statements
    about it: the state it reads (the stored one, or the one it allocates),
    and the gradient after the weight decay. *)
Definition state_or_fresh (h : hyper) (p : param) (st : option param_state)
  : param_state :=
  match st with
  | Some s => s
  | None =>
    State 0 (zeros_like (p_data p)) (zeros_like (p_data p))
          (if amsgrad h then Some (zeros_like (p_data p)) else None)
  end.

Definition decayed_grad (h : hyper) (p : param) (gr : gradient) : list R :=
  if decide (weight_decay h ≠ 0%R)
  then zip_with (λ g x, (g + weight_decay h * x)%R)
                (g_values gr) (values (p_data p))
  else g_values gr.

(** Two more: [step_size] at the step count [t], and the tensor handed to
    [addcdiv_] for the first moment [m] (the moment itself for a parameter
    of one dimension, the [torch.where] of the else branch otherwise). *)
Definition bias_corrected_step_size (h : hyper) (t : nat) : R :=
  (lr h * sqrt (1 - (betas h).2 ^ t) / (1 - (betas h).1 ^ t))%R.

Definition applied_momentum (h : hyper) (p : param) (m : list R) : list R :=
  if decide (dim (p_data p) = 1%nat)
  then m
  else where_
         (zip_with (λ b a, bool_decide (b * a > 0)%R)
                   (sign <$> values (p_data p)) m)
         (zip_with Rmult
            ((λ x, 1 - tanh (metaplasticity h * Rabs x) ^ 2)%R
               <$> values (p_data p))
            m)
         m.

(** More parameters for the examples: one that took no part in the backward
    pass and one with a sparse gradient; and options without
    metaplasticity. *)
Definition frozen0 : param := Param (Dense [2]%nat [1 / 2; - (1 / 2)]%R) None.

Definition sparse0 : param :=
  Param (Dense [2]%nat [1 / 2; - (1 / 2)]%R) (Some (Gradient [1; 1]%R true)).

Definition optimizer1 : optimizer :=
  Optimizer [Group (default_options false) [(weight0, None); (frozen0, None)]].

Definition optimizer2 : optimizer :=
  Optimizer [Group (default_options false) [(weight0, None); (sparse0, None)]].

Definition plain_options : hyper :=
  Hyper (1 / 1000)%R (9 / 10, 999 / 1000)%R 0%R (1 / 100000000)%R 0%R false.

(** A synthetic dataset of [n] samples in 4 classes: sample [j] has the one
    feature [j] and the label [j mod 4]. *)
Definition synthetic (n : nat) : GPUTensorDataset Z :=
  Dataset (Tensor [1] ((λ j, [Z.of_nat j]) <$> seq 0 n))
          ((λ j, Z.of_nat (j `mod` 4)) <$> seq 0 n).

(** Two samples of 2x2 pixels, with the labels 0 and 1. *)
Definition images2x2 : GPUTensorDataset Z :=
  Dataset (Tensor [2; 2] [[1; 2; 3; 4]; [5; 6; 7; 8]]%Z) [0; 1]%Z.

(** Loading functions for the examples: each data set is a synthetic one, the
    test loader takes the test set as one batch, and CIFAR is not on disk. *)
Definition load_synthetic (n k : nat) (batch_size0 : nat)
  : result (GPUDataLoader Z * GPUDataLoader Z) :=
  Ok (GPUDataLoader_init (synthetic n) batch_size0 true true,
      GPUDataLoader_init (synthetic k) k true true).

Definition load_missing (batch_size0 : nat)
  : result (GPUDataLoader Z * GPUDataLoader Z) :=
  Raise (RuntimeError "No such file or directory").

(** * Properties *)

(** ** The data pipeline *)

Section LoaderFacts.
Context {A : Type}.
Implicit Types (d : GPUTensorDataset A) (ld : GPUDataLoader A).
Implicit Types (p idx : list nat).

Lemma gather_ok {X} (l : list X) idx :
  Forall (λ j, j < length l) idx →
  ∃ k, gather l idx = Ok k ∧ length k = length idx.
Proof.
  intros Hidx. unfold gather.
  destruct (mapM (λ j, l !! j) idx) as [k|] eqn:E.
  - exists k. split; [done|]. symmetry. by eapply length_mapM.
  - apply mapM_None_1, Exists_exists in E as (j & Hj & Hnone).
    rewrite Forall_forall in Hidx. apply Hidx in Hj.
    apply lookup_ge_None in Hnone. lia.
Qed.

Lemma getitem_ok d idx :
  length (targets d) = dataset_len d →
  Forall (λ j, j < dataset_len d) idx →
  ∃ bt, getitem d idx = Ok bt ∧ batch_len bt = length idx.
Proof.
  intros Ht Hidx. unfold getitem.
  destruct (gather_ok (rows (data d)) idx Hidx) as (x & -> & Hx).
  rewrite <- Ht in Hidx.
  destruct (gather_ok (targets d) idx Hidx) as (y & -> & Hy).
  eexists. split; [reflexivity|]. done.
Qed.

Lemma window_in_range d p b i :
  in_range d p → Forall (λ j, j < dataset_len d) (take b (drop i p)).
Proof.
  intros (_ & _ & H). by apply Forall_take, Forall_drop.
Qed.

Lemma next_end ld i :
  index ld = Some i → dataset_len (dataset ld) ≤ i →
  __next__ ld = (ld, Raise StopIteration).
Proof.
  intros Hi Hn. unfold __next__. rewrite Hi.
  by rewrite bool_decide_eq_true_2.
Qed.

Lemma next_short_drop ld i :
  index ld = Some i → drop_last ld = true →
  dataset_len (dataset ld) < i + batch_size ld →
  __next__ ld = (ld, Raise StopIteration).
Proof.
  intros Hi Hd Hn. unfold __next__. rewrite Hi, Hd.
  case_bool_decide; [done|]. by rewrite bool_decide_eq_true_2.
Qed.

Lemma next_full ld i p :
  index ld = Some i → perm ld = Some p → in_range (dataset ld) p →
  0 < batch_size ld → i + batch_size ld ≤ dataset_len (dataset ld) →
  ∃ bt, __next__ ld = (set_index (i + batch_size ld) ld, Ok bt) ∧
        getitem (dataset ld) (take (batch_size ld) (drop i p)) = Ok bt ∧
        batch_len bt = batch_size ld.
Proof.
  intros Hi Hp Hr Hb Hn. unfold __next__. rewrite Hi.
  rewrite bool_decide_eq_false_2 by lia.
  rewrite (bool_decide_eq_false_2 (_ < _)) by lia. simpl. rewrite Hp.
  destruct (getitem_ok (dataset ld) (take (batch_size ld) (drop i p)))
    as (bt & Hbt & Hlen).
  { apply Hr. } { by apply window_in_range. }
  exists bt. rewrite Hbt. split; [done|]. split; [done|].
  rewrite Hlen, length_take, length_drop.
  destruct Hr as (_ & -> & _). lia.
Qed.

Lemma next_short_keep ld i p :
  index ld = Some i → perm ld = Some p → in_range (dataset ld) p →
  drop_last ld = false →
  i < dataset_len (dataset ld) →
  dataset_len (dataset ld) < i + batch_size ld →
  ∃ bt, __next__ ld =
          (set_index (dataset_len (dataset ld))
             (set_batch_size (dataset_len (dataset ld) - i) ld), Ok bt) ∧
        batch_len bt = dataset_len (dataset ld) - i.
Proof.
  intros Hi Hp Hr Hd Hlt Hn. unfold __next__. rewrite Hi, Hd.
  rewrite bool_decide_eq_false_2 by lia.
  rewrite (bool_decide_eq_true_2 (_ < _)) by lia. simpl. rewrite Hp.
  set (n := dataset_len (dataset ld)).
  destruct (getitem_ok (dataset ld) (take (n - i) (drop i p)))
    as (bt & Hbt & Hlen).
  { apply Hr. } { by apply window_in_range. }
  exists bt. rewrite Hbt. split.
  - f_equal. unfold set_index, set_batch_size; simpl. f_equal.
    f_equal. subst n. lia.
  - rewrite Hlen, length_take, length_drop.
    destruct Hr as (_ & -> & _). subst n. lia.
Qed.

Lemma div_succ_inv (m b k : nat) :
  0 < b → m `div` b = S k →
  b ≤ m ∧ (m - b) `div` b = k ∧ (m - b) `mod` b = m `mod` b.
Proof.
  intros Hb Hk.
  assert (b ≤ m) as Hle.
  { destruct (decide (b ≤ m)); [done|].
    rewrite Nat.div_small in Hk by lia. done. }
  assert (m = 1 * b + (m - b)) as Hm by lia.
  split; [done|]. split.
  - rewrite Hm, Nat.div_add_l in Hk by lia. lia.
  - rewrite Hm at 2. rewrite Nat.add_comm, Nat.Div0.mod_add. done.
Qed.

Lemma div_zero_inv (m b : nat) : 0 < b → m `div` b = 0 → m < b.
Proof. intros Hb H. apply Nat.div_small_iff in H; lia. Qed.

Lemma drain_yield fuel ld ld1 bt :
  __next__ ld = (ld1, Ok bt) →
  drain (S fuel) ld =
    match drain fuel ld1 with
    | Some (ld'', Ok bs) => Some (ld'', Ok (bt :: bs))
    | other => other
    end.
Proof. intros H. simpl. by rewrite H. Qed.

Lemma drain_stop fuel ld ld1 :
  __next__ ld = (ld1, Raise StopIteration) →
  drain (S fuel) ld = Some (ld1, Ok []).
Proof. intros H. simpl. by rewrite H. Qed.

(** A traversal that drops the remainder: [k] full batches over the windows
    of [perm], then StopIteration, and the loader keeps its batch size. *)
Lemma drain_drop_last k : ∀ ld i p extra,
  index ld = Some i → perm ld = Some p → in_range (dataset ld) p →
  drop_last ld = true → 0 < batch_size ld →
  i ≤ dataset_len (dataset ld) →
  (dataset_len (dataset ld) - i) `div` batch_size ld = k →
  ∃ ld' bs,
    drain (S k + extra) ld = Some (ld', Ok bs) ∧
    Forall2 (λ idx bt, getitem (dataset ld) idx = Ok bt ∧
                       batch_len bt = batch_size ld)
            (windows k (batch_size ld) i p) bs ∧
    __next__ ld' = (ld', Raise StopIteration) ∧
    batch_size ld' = batch_size ld ∧ dataset ld' = dataset ld.
Proof.
  induction k as [|k IH]; intros ld i p extra Hi Hp Hr Hd Hb Hle Hk.
  - apply div_zero_inv in Hk; [|done].
    assert (__next__ ld = (ld, Raise StopIteration)) as Hnext.
    { destruct (decide (dataset_len (dataset ld) ≤ i)).
      - by eapply next_end.
      - eapply next_short_drop; [done..|lia]. }
    exists ld, []. change (1 + extra) with (S extra).
    rewrite (drain_stop _ _ _ Hnext).
    split; [done|]. split; [constructor|]. done.
  - apply div_succ_inv in Hk as (Hbn & Hk & _); [|done].
    destruct (next_full ld i p) as (bt & Hnext & Hbt & Hlen);
      [done..|lia|].
    destruct (IH (set_index (i + batch_size ld) ld) (i + batch_size ld) p
                extra) as (ld' & bs & Hdr & Hall & Hstop & Hbs & Hds);
      [done..|simpl; lia| |].
    { simpl. rewrite <- Hk. f_equal. lia. }
    exists ld', (bt :: bs).
    change (S (S k) + extra) with (S (S k + extra)).
    rewrite (drain_yield _ _ _ _ Hnext), Hdr. simpl in Hall, Hbs, Hds.
    split; [done|]. split; [by constructor|]. done.
Qed.

(** A traversal that keeps the remainder, on a dataset whose rest from the
    cursor is not a multiple of the batch size: [k] full batches, one batch
    with the remainder, then StopIteration; the loader is left with the
    remainder as its batch size. *)
Lemma drain_keep_last k : ∀ ld i p extra,
  index ld = Some i → perm ld = Some p → in_range (dataset ld) p →
  drop_last ld = false → 0 < batch_size ld →
  i ≤ dataset_len (dataset ld) →
  (dataset_len (dataset ld) - i) `mod` batch_size ld ≠ 0 →
  (dataset_len (dataset ld) - i) `div` batch_size ld = k →
  ∃ ld' bs,
    drain (S (S k) + extra) ld = Some (ld', Ok bs) ∧
    batch_len <$> bs =
      replicate k (batch_size ld) ++
      [(dataset_len (dataset ld) - i) `mod` batch_size ld] ∧
    __next__ ld' = (ld', Raise StopIteration) ∧
    batch_size ld' = (dataset_len (dataset ld) - i) `mod` batch_size ld ∧
    dataset ld' = dataset ld ∧ drop_last ld' = false ∧
    shuffle ld' = shuffle ld ∧ reference ld' = reference ld.
Proof.
  induction k as [|k IH]; intros ld i p extra Hi Hp Hr Hd Hb Hle Hm Hk.
  - apply div_zero_inv in Hk; [|done].
    rewrite Nat.mod_small in Hm |- * by done.
    destruct (next_short_keep ld i p) as (bt & Hnext & Hlen);
      [done..|lia|lia|].
    assert (__next__ (set_index (dataset_len (dataset ld))
               (set_batch_size (dataset_len (dataset ld) - i) ld))
            = (set_index (dataset_len (dataset ld))
                 (set_batch_size (dataset_len (dataset ld) - i) ld),
               Raise StopIteration)) as Hstop
      by by apply next_end with (i := dataset_len (dataset ld)).
    eexists _, [bt].
    change (2 + extra) with (S (S extra)).
    rewrite (drain_yield _ _ _ _ Hnext), (drain_stop _ _ _ Hstop).
    simpl. rewrite Hlen. done.
  - apply div_succ_inv in Hk as (Hbn & Hk & Hmod); [|done].
    destruct (next_full ld i p) as (bt & Hnext & Hbt & Hlen);
      [done..|lia|].
    destruct (IH (set_index (i + batch_size ld) ld) (i + batch_size ld) p
                extra)
      as (ld' & bs & Hdr & Hall & Hstop & Hbs & Hds & Hdl & Hsh & Href);
      [done..|simpl; lia| | |].
    { simpl. rewrite <- Hmod in Hm. intros Hz. apply Hm. rewrite <- Hz.
      f_equal. lia. }
    { simpl. rewrite <- Hk. f_equal. lia. }
    exists ld', (bt :: bs).
    change (S (S (S k)) + extra) with (S (S (S k) + extra)).
    rewrite (drain_yield _ _ _ _ Hnext), Hdr. simpl in Hall, Hbs, Hds.
    assert (dataset_len (dataset ld) - (i + batch_size ld)
            = dataset_len (dataset ld) - i - batch_size ld) as Heq by lia.
    rewrite Heq, Hmod in Hall, Hbs.
    rewrite fmap_cons, Hall, Hlen. done.
Qed.

(** [__iter__] hands [__next__] indices that are in range. *)
Lemma iter_in_range draw ld :
  length (targets (dataset ld)) = dataset_len (dataset ld) →
  draw ≡ₚ seq 0 (dataset_len (dataset ld)) →
  ∃ p, perm (__iter__ draw ld) = Some p ∧
       p ≡ₚ seq 0 (dataset_len (dataset ld)) ∧
       in_range (dataset ld) p.
Proof.
  intros Ht Hperm.
  assert (∀ p, p ≡ₚ seq 0 (dataset_len (dataset ld)) →
               in_range (dataset ld) p) as Hin.
  { intros p Hp. split; [done|]. split.
    - by rewrite Hp, length_seq.
    - rewrite Hp. apply Forall_seq. intros; lia. }
  simpl. destruct (shuffle ld); eexists; eauto.
Qed.

End LoaderFacts.

(** *** Traversals *)

(** C5.  A loader built with drop_last=True over 100 samples and batch size
    30: whatever permutation [__iter__] draws (and with or without
    shuffling), one traversal returns exactly three batches; they are the
    samples at three index lists of 30 indices each, the 90 indices are
    pairwise distinct and in range, and the next call to [__next__] raises
    StopIteration: the last 10 samples are in no batch. *)
Theorem drop_last_100_30_three_batches {A} (d : GPUTensorDataset A)
    (sh : bool) (draw : list nat) (extra : nat) :
  dataset_len d = 100 → length (targets d) = 100 → draw ≡ₚ seq 0 100 →
  ∃ ld' b1 b2 b3 i1 i2 i3,
    traverse (4 + extra) draw (GPUDataLoader_init d 30 sh true)
      = Some (ld', Ok [b1; b2; b3]) ∧
    getitem d i1 = Ok b1 ∧ getitem d i2 = Ok b2 ∧ getitem d i3 = Ok b3 ∧
    batch_len b1 = 30 ∧ batch_len b2 = 30 ∧ batch_len b3 = 30 ∧
    length (i1 ++ i2 ++ i3) = 90 ∧ NoDup (i1 ++ i2 ++ i3) ∧
    Forall (λ j, j < 100) (i1 ++ i2 ++ i3) ∧
    __next__ ld' = (ld', Raise StopIteration).
Proof.
  intros Hn Ht Hdraw.
  set (ld := GPUDataLoader_init d 30 sh true).
  destruct (iter_in_range draw ld) as (p & Hp & Hperm & Hr);
    [simpl; lia | by (simpl; rewrite Hn) |].
  simpl in Hperm, Hr. rewrite Hn in Hperm.
  destruct (drain_drop_last 3 (__iter__ draw ld) 0 p extra)
    as (ld' & bs & Hdr & Hall & Hstop & _); [done..|simpl; lia|simpl; lia| |].
  { simpl. by rewrite Hn. }
  simpl in Hall.
  apply Forall2_cons_inv_l in Hall as (b1 & bs1 & [H1 L1] & Hall & ->).
  apply Forall2_cons_inv_l in Hall as (b2 & bs2 & [H2 L2] & Hall & ->).
  apply Forall2_cons_inv_l in Hall as (b3 & bs3 & [H3 L3] & Hall & ->).
  apply Forall2_nil_inv_l in Hall as ->.
  exists ld', b1, b2, b3, (take 30 p), (take 30 (drop 30 p)),
    (take 30 (drop 60 p)).
  assert (take 30 p ++ take 30 (drop 30 p) ++ take 30 (drop 60 p)
          = take 90 p) as Hcat.
  { change (take 90 p) with (take (30 + (30 + 30)) p).
    rewrite <- (take_take_drop p 30 (30 + 30)).
    rewrite <- (take_take_drop (drop 30 p) 30 30).
    by rewrite drop_drop. }
  assert (length p = 100) as Hlen by by rewrite Hperm, length_seq.
  split; [exact Hdr|]. repeat (split; [done|]).
  rewrite Hcat. split; [rewrite length_take; lia|]. split.
  - refine (sublist_NoDup _ _ _ (sublist_take p 90)).
    rewrite Hperm. apply NoDup_seq.
  - split; [|done]. apply Forall_take. rewrite Hperm.
    apply Forall_seq. intros; lia.
Qed.

Lemma drop_last_100_30_three_batches_witness :
  ∃ ld' b1 b2 b3 i1 i2 i3,
    traverse 4 (seq 0 100) (GPUDataLoader_init (synthetic 100) 30 true true)
      = Some (ld', Ok [b1; b2; b3]) ∧
    getitem (synthetic 100) i1 = Ok b1 ∧
    getitem (synthetic 100) i2 = Ok b2 ∧
    getitem (synthetic 100) i3 = Ok b3 ∧
    batch_len b1 = 30 ∧ batch_len b2 = 30 ∧ batch_len b3 = 30 ∧
    length (i1 ++ i2 ++ i3) = 90 ∧ NoDup (i1 ++ i2 ++ i3) ∧
    Forall (λ j, j < 100) (i1 ++ i2 ++ i3) ∧
    __next__ ld' = (ld', Raise StopIteration).
Proof.
  apply (drop_last_100_30_three_batches (synthetic 100) true (seq 0 100) 0);
    reflexivity.
Defined.

(** With drop_last=False and a dataset size that is not a multiple of the
    batch size, one traversal returns the full batches, then one batch with
    the remainder, then StopIteration.  The loader it leaves behind has the
    remainder as its batch size. *)
Lemma traverse_keep_last {A} (ld : GPUDataLoader A) (draw : list nat)
    (extra : nat) :
  drop_last ld = false → 0 < batch_size ld →
  dataset_len (dataset ld) `mod` batch_size ld ≠ 0 →
  length (targets (dataset ld)) = dataset_len (dataset ld) →
  draw ≡ₚ seq 0 (dataset_len (dataset ld)) →
  ∃ ld' bs,
    traverse (dataset_len (dataset ld) `div` batch_size ld + 2 + extra)
             draw ld = Some (ld', Ok bs) ∧
    batch_len <$> bs =
      replicate (dataset_len (dataset ld) `div` batch_size ld) (batch_size ld)
      ++ [dataset_len (dataset ld) `mod` batch_size ld] ∧
    __next__ ld' = (ld', Raise StopIteration) ∧
    batch_size ld' = dataset_len (dataset ld) `mod` batch_size ld ∧
    dataset ld' = dataset ld ∧ drop_last ld' = false.
Proof.
  intros Hd Hb Hm Ht Hdraw.
  destruct (iter_in_range draw ld Ht Hdraw) as (p & Hp & _ & Hr).
  destruct (drain_keep_last (dataset_len (dataset ld) `div` batch_size ld)
              (__iter__ draw ld) 0 p extra)
    as (ld' & bs & Hdr & Hsz & Hstop & Hbs & Hds & Hdl & _);
    [done..|simpl; lia| | |].
  { simpl. by rewrite Nat.sub_0_r. }
  { simpl. by rewrite Nat.sub_0_r. }
  simpl in Hsz, Hbs, Hds. rewrite Nat.sub_0_r in Hsz, Hbs.
  exists ld', bs. unfold traverse.
  replace (dataset_len (dataset ld) `div` batch_size ld + 2 + extra)
    with (S (S (dataset_len (dataset ld) `div` batch_size ld)) + extra)
    by lia.
  done.
Qed.

(** C10.  [__len__] is the quotient of the dataset length by the batch size,
    whatever drop_last is; with drop_last=False and a dataset size that is
    not a multiple of the batch size, a traversal returns one batch more than
    [__len__] reports. *)
Theorem len_is_quotient_whatever_drop_last {A} (ld : GPUDataLoader A)
    (draw : list nat) (extra : nat) :
  0 < batch_size ld →
  __len__ ld = Ok (dataset_len (dataset ld) `div` batch_size ld) ∧
  (drop_last ld = false →
   dataset_len (dataset ld) `mod` batch_size ld ≠ 0 →
   length (targets (dataset ld)) = dataset_len (dataset ld) →
   draw ≡ₚ seq 0 (dataset_len (dataset ld)) →
   ∃ ld' bs n,
     traverse (dataset_len (dataset ld) `div` batch_size ld + 2 + extra)
              draw ld = Some (ld', Ok bs) ∧
     __len__ ld = Ok n ∧ length bs = n + 1).
Proof.
  intros Hb.
  assert (__len__ ld = Ok (dataset_len (dataset ld) `div` batch_size ld))
    as Hlen.
  { unfold __len__. rewrite bool_decide_eq_false_2 by lia. done. }
  split; [done|]. intros Hd Hm Ht Hdraw.
  destruct (traverse_keep_last ld draw extra) as (ld' & bs & Htr & Hsz & _);
    [done..|].
  exists ld', bs, (dataset_len (dataset ld) `div` batch_size ld).
  split; [done|]. split; [done|].
  apply (f_equal length) in Hsz.
  rewrite length_fmap, length_app, length_replicate in Hsz. done.
Qed.

Lemma len_is_quotient_whatever_drop_last_witness :
  0 < 3 ∧
  __len__ (GPUDataLoader_init (synthetic 10) 3 true false) = Ok 3 ∧
  ∃ ld' bs n,
    traverse 5 [9; 8; 7; 6; 5; 4; 3; 2; 1; 0]
             (GPUDataLoader_init (synthetic 10) 3 true false)
      = Some (ld', Ok bs) ∧
    __len__ (GPUDataLoader_init (synthetic 10) 3 true false) = Ok n ∧
    length bs = n + 1.
Proof.
  split; [lia|].
  destruct (len_is_quotient_whatever_drop_last
              (GPUDataLoader_init (synthetic 10) 3 true false)
              [9; 8; 7; 6; 5; 4; 3; 2; 1; 0] 0) as [Hlen Htr];
    [simpl; lia|].
  split; [exact Hlen|].
  apply Htr; [reflexivity|simpl; lia|reflexivity|].
  exact (reverse_Permutation (seq 0 10)).
Defined.

(** C3.  Restarting after a traversal that returned a shrunk batch: the
    shrunk size has replaced [batch_size], so on 10 samples with batch size 3
    and drop_last=False the first traversal returns batches of 3, 3, 3 and 1
    samples and leaves a loader of batch size 1, and the second traversal
    returns ten batches of 1 sample. *)
Theorem second_traversal_uses_shrunk_batch_size :
  ∃ ld1 bs1 ld2 bs2,
    traverse 20 [] (GPUDataLoader_init (synthetic 10) 3 false false)
      = Some (ld1, Ok bs1) ∧
    batch_len <$> bs1 = [3; 3; 3; 1] ∧
    batch_size ld1 = 1 ∧
    traverse 20 [] ld1 = Some (ld2, Ok bs2) ∧
    batch_len <$> bs2 = [1; 1; 1; 1; 1; 1; 1; 1; 1; 1].
Proof.
  do 4 eexists. split; [vm_compute; reflexivity|].
  split; [reflexivity|]. split; [reflexivity|].
  split; [vm_compute; reflexivity|]. reflexivity.
Qed.

(** *** Transforms *)

Section TransformFacts.
Context {A : Type}.
Implicit Types (ld : GPUDataLoader A) (t : tensor A) (p : list nat).

Lemma restore_reference_spec ld :
  data (dataset (restore_reference ld)) = pristine ld ∧
  reference (restore_reference ld) = Some (pristine ld) ∧
  targets (dataset (restore_reference ld)) = targets (dataset ld).
Proof. unfold restore_reference, pristine. by destruct (reference ld). Qed.

(** The loop body of [class_incremental_dataset] restores the features and
    selects nothing: all samples and all labels stay. *)
Lemma class_incremental_body_spec i ld :
  ∃ ld', class_incremental_body i ld = (ld', Ok ()) ∧
         data (dataset ld') = pristine ld ∧
         targets (dataset ld') = targets (dataset ld).
Proof.
  eexists. split; [reflexivity|].
  destruct (restore_reference_spec ld) as (? & _ & ?). done.
Qed.

Lemma permute_dataset_body_spec p ld ld' :
  permute_dataset_body p ld = (ld', Ok ()) →
  permute_pixels (pristine ld) p = Ok (data (dataset ld')) ∧
  reference ld' = Some (pristine ld) ∧
  targets (dataset ld') = targets (dataset ld).
Proof.
  unfold permute_dataset_body.
  destruct (restore_reference_spec ld) as (Hd & Hr & Ht).
  rewrite Hd. destruct (permute_pixels (pristine ld) p) as [t|e]; [|done].
  intros [= <-]. simpl. done.
Qed.

Lemma gather_all {X} (l : list X) : gather l (seq 0 (length l)) = Ok l.
Proof.
  unfold gather. rewrite (mapM_Some_2 _ _ l); [done|].
  apply Forall2_same_length_lookup_2; [by rewrite length_seq|].
  intros i j x Hj Hx. apply lookup_seq in Hj as [-> _]. done.
Qed.

Lemma mapM_result_id {X} (f : X → result X) (l : list X) :
  Forall (λ x, f x = Ok x) l → mapM f l = Ok l.
Proof.
  induction 1 as [|x l Hx _ IH]; [done|].
  simpl. rewrite Hx. simpl. rewrite IH. done.
Qed.

(** The identity permutation gives the tensor back. *)
Lemma permute_pixels_identity t :
  tensor_wf t → rows t ≠ [] →
  permute_pixels t (seq 0 (numel_item t)) = Ok t.
Proof.
  intros Hwf Hne. unfold permute_pixels.
  destruct (rows t) as [|r rs] eqn:Hrows; [done|].
  rewrite mapM_result_id.
  - simpl. rewrite length_seq, bool_decide_eq_true_2 by done.
    destruct t; simpl in *. by rewrite Hrows.
  - unfold tensor_wf in Hwf. rewrite Hrows in Hwf.
    eapply Forall_impl; [exact Hwf|]. intros x Hx. simpl in Hx.
    rewrite <- Hx. apply gather_all.
Qed.

(** In a run of [permute_dataset], the loader at the [k]-th yield has the
    [k]-th permutation applied to the features the run started from. *)
Lemma permute_dataset_yields use : ∀ perms ld ys fin k ld_k,
  (∀ l, reference (use l) = reference l) →
  permute_dataset use perms ld = (ys, fin) →
  ys !! k = Some ld_k →
  ∃ p, perms !! k = Some p ∧
       permute_pixels (pristine ld) p = Ok (data (dataset ld_k)) ∧
       reference ld_k = Some (pristine ld).
Proof.
  unfold permute_dataset.
  induction perms as [|q perms IH]; intros ld ys fin k ld_k Huse Hrun Hk.
  - simpl in Hrun. injection Hrun as <- _. done.
  - simpl in Hrun.
    destruct (permute_dataset_body q ld) as [ld1 [[]|e]] eqn:Hbody.
    + apply permute_dataset_body_spec in Hbody as (Hpx & Href & _).
      destruct (for_each permute_dataset_body use perms (use ld1))
        as [ys' fin'] eqn:Hrest.
      injection Hrun as <- _.
      destruct k as [|k]; simpl in Hk.
      * injection Hk as <-. exists q. done.
      * destruct (IH _ _ _ _ _ Huse Hrest Hk) as (p & Hp & Hpx' & Href').
        assert (pristine (use ld1) = pristine ld) as Heq.
        { unfold pristine at 1. by rewrite Huse, Href. }
        rewrite Heq in Hpx', Href'. exists p. done.
    + injection Hrun as <- _. done.
Qed.

(** [for_each] resumes the generator once per loop value. *)
Lemma for_each_resume {X} (body : X → GPUDataLoader A → GPUDataLoader A * result ())
    (use : GPUDataLoader A → GPUDataLoader A) (pending rest : list X) ld ld' :
  resume body pending ld = (ld', Ok rest) →
  for_each body use pending ld
    = (ld' :: (for_each body use rest (use ld')).1,
       (for_each body use rest (use ld')).2).
Proof.
  destruct pending as [|x pending]; [done|]. simpl.
  destruct (body x ld) as [ld1 [[]|e]]; [|done]. intros [= <- <-].
  by destruct (for_each body use pending (use ld1)).
Qed.

(** [class_incremental_dataset] yields once per task and ends without an
    exception. *)
Lemma class_incremental_dataset_yields_n_tasks use (n_tasks : Z) ld :
  length (class_incremental_dataset use n_tasks ld).1 = Z.to_nat n_tasks ∧
  (class_incremental_dataset use n_tasks ld).2.2 = Ok ().
Proof.
  unfold class_incremental_dataset.
  generalize (Z.to_nat n_tasks) as n. intros n.
  generalize 0%nat as start. revert ld.
  induction n as [|n IH]; intros ld start; [done|].
  simpl. specialize (IH (use (restore_reference ld)) (S start)).
  destruct (for_each _ _ _ _) as [ys fin]. simpl in *.
  destruct IH as [-> ->]. done.
Qed.

End TransformFacts.

(** C2.  [class_incremental_dataset] on a dataset of four samples with the
    labels 0, 1, 2, 3 and two tasks: the generator yields twice, and at both
    yields the loader holds the whole dataset, the samples with labels
    outside the task's block of labels included. *)
Theorem class_incremental_dataset_selects_nothing :
  ∃ y0 y1 fin,
    class_incremental_dataset (λ l, l) 2
      (GPUDataLoader_init (synthetic 4) 2 false false) = ([y0; y1], fin) ∧
    targets (dataset y0) = [0; 1; 2; 3]%Z ∧
    dataset y0 = synthetic 4 ∧ dataset y1 = synthetic 4.
Proof. do 3 eexists. split; [reflexivity|]. done. Qed.

(** C6.  Each resumption of [permute_dataset] starts from the untransformed
    reference.  With the identity permutation the loader is left with these
    features, numerically unchanged (and the step raises nothing unless the
    dataset is empty); and in a run over any list of
    permutations, the loader at the [k]-th yield holds the [k]-th permutation
    of the features the run started from, whatever the permutations before
    it were and whatever the caller did to the loader between the yields
    short of rebinding [reference]. *)
Theorem permute_dataset_rewinds_to_reference {A}
    (use : GPUDataLoader A → GPUDataLoader A) (ld : GPUDataLoader A) :
  (∀ l, reference (use l) = reference l) →
  tensor_wf (pristine ld) →
  (∃ ld' r, permute_dataset_body (seq 0 (numel_item (pristine ld))) ld
              = (ld', r) ∧
            data (dataset ld') = pristine ld ∧
            targets (dataset ld') = targets (dataset ld) ∧
            (rows (pristine ld) ≠ [] → r = Ok ())) ∧
  (∀ perms ys fin k ld_k,
     permute_dataset use perms ld = (ys, fin) →
     ys !! k = Some ld_k →
     ∃ p, perms !! k = Some p ∧
          permute_pixels (pristine ld) p = Ok (data (dataset ld_k)) ∧
          reference ld_k = Some (pristine ld)).
Proof.
  intros Huse Hwf. split.
  - unfold permute_dataset_body.
    destruct (restore_reference_spec ld) as (Hd & _ & Ht). rewrite Hd.
    destruct (rows (pristine ld)) as [|r0 rs] eqn:Hrows.
    + unfold permute_pixels. rewrite Hrows.
      eexists _, _. split; [reflexivity|]. done.
    + rewrite permute_pixels_identity by (done || by rewrite Hrows).
      eexists _, _. split; [reflexivity|]. simpl. done.
  - intros perms ys fin k ld_k. by apply permute_dataset_yields.
Qed.

Lemma permute_dataset_rewinds_to_reference_witness :
  (∀ l : GPUDataLoader Z, reference ((λ l, l) l) = reference l) ∧
  tensor_wf (data images2x2) ∧
  (∃ ld', permute_dataset_body (seq 0 4)
            (GPUDataLoader_init images2x2 1 false true) = (ld', Ok ()) ∧
          data (dataset ld') = data images2x2 ∧
          targets (dataset ld') = [0; 1]%Z) ∧
  (∃ p, [[3; 2; 1; 0]; [1; 0; 3; 2]] !! 1 = Some p ∧
        permute_pixels (data images2x2) p
          = Ok (Tensor [2; 2] [[2; 1; 4; 3]; [6; 5; 8; 7]]%Z)).
Proof.
  assert (tensor_wf (data images2x2)) as Hwf by repeat constructor.
  destruct (permute_dataset_rewinds_to_reference (λ l, l)
              (GPUDataLoader_init images2x2 1 false true)) as [Hid Hrun];
    [reflexivity|exact Hwf|].
  split; [reflexivity|]. split; [exact Hwf|]. split.
  - destruct Hid as (ld' & r & Hbody & Hd & Ht & Hok).
    exists ld'. rewrite Hok in Hbody by done. done.
  - destruct (Hrun [[3; 2; 1; 0]; [1; 0; 3; 2]] _ _ 1 _ eq_refl eq_refl)
      as (p & Hp & Hpx & _).
    exists p. split; [exact Hp|exact Hpx].
Defined.

(** ** The metaplastic optimizer *)

Section OptimizerFacts.
Local Open Scope R_scope.

Lemma tanh_bounds (x : R) : -1 <= tanh x <= 1.
Proof.
  unfold tanh, sinh, cosh.
  pose proof (exp_pos x) as Ha. pose proof (exp_pos (- x)) as Hb.
  set (a := exp x) in *. set (b := exp (- x)) in *.
  replace ((a - b) / 2 / ((a + b) / 2)) with ((a - b) / (a + b))
    by (field; lra).
  unfold Rdiv.
  assert (0 < / (a + b)) as Hc by (apply Rinv_0_lt_compat; lra).
  assert ((a + b) * / (a + b) = 1) as Hone by (apply Rinv_r; lra).
  split; nra.
Qed.

(** The metaplastic decay factor lies between 0 and 1. *)
Lemma decay_factor_bounds (meta w : R) :
  0 <= 1 - tanh (meta * Rabs w) ^ 2 <= 1.
Proof. pose proof (tanh_bounds (meta * Rabs w)). nra. Qed.

Lemma decayed_magnitude (meta w a : R) :
  Rabs ((1 - tanh (meta * Rabs w) ^ 2) * a) <= Rabs a.
Proof.
  pose proof (decay_factor_bounds meta w) as [H0 H1].
  rewrite Rabs_mult, (Rabs_right (1 - _)) by lra.
  pose proof (Rabs_pos a). nra.
Qed.

Lemma mapM_result_lookup {X Y} (f : X → result Y) (l : list X) :
  ∀ (k : list Y) (i : nat) (x : X),
    mapM f l = Ok k → l !! i = Some x →
    ∃ y, k !! i = Some y ∧ f x = Ok y.
Proof.
  induction l as [|x0 l IH]; intros k i x Hm Hi; [done|].
  simpl in Hm. destruct (f x0) as [y0|] eqn:Hy0; [|done]. simpl in Hm.
  destruct (mapM f l) as [k0|] eqn:Hk0; [|done]. simpl in Hm.
  injection Hm as <-. destruct i as [|i]; simpl in *.
  - injection Hi as <-. eauto.
  - eauto.
Qed.

Lemma addcdiv_lookup (t : list R) (c : R) (a b : list R) (i : nat) (x : R) :
  addcdiv t c a b !! i = Some x ↔
  ∃ w ai bi, t !! i = Some w ∧ a !! i = Some ai ∧ b !! i = Some bi ∧
             x = w + c * (ai / bi).
Proof.
  unfold addcdiv. rewrite lookup_zip_with_Some. split.
  - intros (w & q & -> & Hw & Hq).
    apply lookup_zip_with_Some in Hq as (ai & bi & -> & Ha & Hb).
    by exists w, ai, bi.
  - intros (w & ai & bi & Hw & Ha & Hb & ->).
    exists w, (ai / bi). split; [done|]. split; [done|].
    apply lookup_zip_with_Some. by exists ai, bi.
Qed.

Lemma where_lookup (c : list bool) (a b : list R) (i : nat) (x : R) :
  where_ c a b !! i = Some x ↔
  ∃ (ci : bool) ai bi,
    c !! i = Some ci ∧ a !! i = Some ai ∧ b !! i = Some bi ∧
    x = if ci then ai else bi.
Proof.
  unfold where_. rewrite lookup_zip_with_Some. split.
  - intros (ci & [ai bi] & -> & Hc & Hab).
    apply lookup_zip_with_Some in Hab as (ai' & bi' & [= -> ->] & Ha & Hb).
    by exists ci, ai', bi'.
  - intros (ci & ai & bi & Hc & Ha & Hb & ->).
    exists ci, (ai, bi). split; [done|]. split; [done|].
    apply lookup_zip_with_Some. by exists ai, bi.
Qed.

Lemma pow_succ_lt_1 (b : R) (n : nat) : 0 <= b < 1 → 0 <= b ^ S n < 1.
Proof.
  intros Hb. induction n as [|n IH].
  - rewrite pow_1. lra.
  - change (b ^ S (S n)) with (b * b ^ S n). nra.
Qed.

(** The loop body, when it returns for a parameter with a gradient: every
    piece of the new state and of the update in terms of what it read. *)
Lemma step_param_full_anatomy h p st gr p' st' info :
  p_grad p = Some gr →
  step_param_full h p st = Ok (p', st', info) →
  ∃ st1 inf,
    st' = Some st1 ∧ info = Some inf ∧ is_sparse gr = false ∧
    step st1 = S (step (state_or_fresh h p st)) ∧
    exp_avg st1 =
      zip_with (λ a g, a * (betas h).1 + (1 - (betas h).1) * g)
               (exp_avg (state_or_fresh h p st)) (decayed_grad h p gr) ∧
    exp_avg_sq st1 =
      zip_with (λ a g, a * (betas h).2 + (1 - (betas h).2) * (g * g))
               (exp_avg_sq (state_or_fresh h p st)) (decayed_grad h p gr) ∧
    (if amsgrad h
     then ∃ mx0,
            max_exp_avg_sq (state_or_fresh h p st) = Some mx0 ∧
            max_exp_avg_sq st1 = Some (zip_with Rmax mx0 (exp_avg_sq st1)) ∧
            denom inf =
              (λ x, sqrt x + eps h) <$> zip_with Rmax mx0 (exp_avg_sq st1)
     else max_exp_avg_sq st1 = max_exp_avg_sq (state_or_fresh h p st) ∧
          denom inf = (λ x, sqrt x + eps h) <$> exp_avg_sq st1) ∧
    step_size inf =
      lr h * sqrt (1 - (betas h).2 ^ step st1) / (1 - (betas h).1 ^ step st1) ∧
    p_grad p' = Some (Gradient (decayed_grad h p gr) false) ∧
    shape (p_data p') = shape (p_data p) ∧
    values (p_data p') =
      addcdiv (values (p_data p)) (- step_size inf) (momentum inf)
              (denom inf) ∧
    momentum inf = applied_momentum h p (exp_avg st1) ∧
    0 <= 1 - (betas h).2 ^ step st1 ∧
    1 - (betas h).1 ^ step st1 ≠ 0.
Proof.
  intros Hg. unfold step_param_full. rewrite Hg.
  destruct (is_sparse gr); [done|].
  fold (state_or_fresh h p st). fold (decayed_grad h p gr).
  destruct (amsgrad h) eqn:Hams.
  - destruct (max_exp_avg_sq (state_or_fresh h p st)) as [mx0|] eqn:Hmx;
      [|done].
    simpl.
    destruct (decide (_ < 0)) as [|Hb2]; [done|].
    destruct (decide (_ = 0)) as [|Hb1]; [done|].
    intros [= <- <- <-]. eexists _, _.
    do 6 (split; [reflexivity|]). split; [by exists mx0|].
    do 5 (split; [reflexivity|]). split; [simpl; lra | done].
  - simpl.
    destruct (decide (_ < 0)) as [|Hb2]; [done|].
    destruct (decide (_ = 0)) as [|Hb1]; [done|].
    intros [= <- <- <-]. eexists _, _.
    do 6 (split; [reflexivity|]). split; [done|].
    do 5 (split; [reflexivity|]). split; [simpl; lra | done].
Qed.

(** What a pass through the loop body does to a parameter that has a
    gradient, when it raises nothing. *)
Lemma step_param_full_inv h p st gr p' st' info :
  p_grad p = Some gr →
  step_param_full h p st = Ok (p', st', info) →
  ∃ st1 inf,
    st' = Some st1 ∧ info = Some inf ∧ is_sparse gr = false ∧
    shape (p_data p') = shape (p_data p) ∧
    values (p_data p') =
      addcdiv (values (p_data p)) (- step_size inf) (momentum inf)
              (denom inf) ∧
    momentum inf =
      (if decide (dim (p_data p) = 1%nat)
       then exp_avg st1
       else where_
              (zip_with (λ b a, bool_decide (b * a > 0))
                        (sign <$> values (p_data p)) (exp_avg st1))
              (zip_with Rmult
                 ((λ x, 1 - tanh (metaplasticity h * Rabs x) ^ 2)
                    <$> values (p_data p))
                 (exp_avg st1))
              (exp_avg st1)).
Proof.
  intros Hg Hstep.
  destruct (step_param_full_anatomy _ _ _ _ _ _ _ Hg Hstep)
    as (st1 & inf & -> & -> & Hsp & _ & _ & _ & _ & _ & _ & Hshape & Hval
        & Hmom & _).
  by exists st1, inf.
Qed.

(** The loop body raises nothing on a parameter with a dense gradient, with
    betas as the constructor accepts them, whose state, when the AMS variant
    is on, is empty or has [max_exp_avg_sq]. *)
Lemma step_param_full_returns h p st gr :
  p_grad p = Some gr → is_sparse gr = false →
  (amsgrad h = true →
   st = None ∨ ∃ s mx, st = Some s ∧ max_exp_avg_sq s = Some mx) →
  0 <= (betas h).1 < 1 → 0 <= (betas h).2 < 1 →
  ∃ p' st' inf, step_param_full h p st = Ok (p', Some st', Some inf).
Proof.
  intros Hg Hs Hams Hb1 Hb2. unfold step_param_full. rewrite Hg, Hs.
  fold (state_or_fresh h p st).
  pose proof (pow_succ_lt_1 _ (step (state_or_fresh h p st)) Hb1) as H1.
  pose proof (pow_succ_lt_1 _ (step (state_or_fresh h p st)) Hb2) as H2.
  assert (∀ X (a b c : result X),
            (if decide (1 - (betas h).2 ^ S (step (state_or_fresh h p st)) < 0)
             then a
             else if decide
                       (1 - (betas h).1 ^ S (step (state_or_fresh h p st)) = 0)
                  then b else c) = c) as Hchecks.
  { intros X a b c. rewrite decide_False by lra. by rewrite decide_False by lra. }
  destruct (amsgrad h) eqn:Hamsgrad.
  - assert (∃ mx, max_exp_avg_sq (state_or_fresh h p st) = Some mx)
      as [mx Hmx].
    { destruct (Hams eq_refl) as [->|(s & mx & -> & Hmx)]; simpl.
      - rewrite Hamsgrad. eauto.
      - eauto. }
    rewrite Hmx. cbn -[pow]. rewrite Hchecks. eexists _, _, _. reflexivity.
  - cbn -[pow]. rewrite Hchecks. eexists _, _, _. reflexivity.
Qed.

(** The momentum tensor of a weight parameter, element by element. *)
Lemma metaplastic_momentum_lookup (meta : R) (vals m : list R) (i : nat)
    (u : R) :
  where_ (zip_with (λ b a, bool_decide (b * a > 0)) (sign <$> vals) m)
         (zip_with Rmult ((λ x, 1 - tanh (meta * Rabs x) ^ 2) <$> vals) m)
         m !! i = Some u ↔
  ∃ w a, vals !! i = Some w ∧ m !! i = Some a ∧
         u = if decide (sign w * a > 0)
             then (1 - tanh (meta * Rabs w) ^ 2) * a
             else a.
Proof.
  rewrite where_lookup. split.
  - intros (ci & ai & bi & Hc & Ha & Hb & ->).
    apply lookup_zip_with_Some in Hc as (s0 & a & -> & Hs & Hm).
    apply lookup_zip_with_Some in Ha as (f & a' & -> & Hf & Hm').
    rewrite list_lookup_fmap in Hs, Hf.
    destruct (vals !! i) as [w|] eqn:Hw; [|done].
    simpl in Hs, Hf. injection Hs as <-. injection Hf as <-.
    assert (a' = a) as -> by congruence.
    assert (bi = a) as -> by congruence.
    exists w, a. split; [done|]. split; [done|].
    case_bool_decide; case_decide; done.
  - intros (w & a & Hw & Hm & ->).
    exists (bool_decide (sign w * a > 0)),
      ((1 - tanh (meta * Rabs w) ^ 2) * a), a.
    split; [|split; [|split; [done|]]].
    + apply lookup_zip_with_Some. exists (sign w), a.
      rewrite list_lookup_fmap, Hw. done.
    + apply lookup_zip_with_Some. exists (1 - tanh (meta * Rabs w) ^ 2), a.
      rewrite list_lookup_fmap, Hw. done.
    + case_bool_decide; case_decide; done.
Qed.

(** A call of [step] that raises nothing has run the loop body on every
    parameter of every group, and keeps what the body returned. *)
Lemma MetaplasticAdam_step_slot
    (closure : option (optimizer → optimizer * R)) (opt opt' : optimizer)
    (loss : option R) (gi j : nat) (g : param_group) (p : param)
    (st : option param_state) :
  MetaplasticAdam_step closure opt = Ok (opt', loss) →
  param_groups (call_closure closure opt).1 !! gi = Some g →
  params g !! j = Some (p, st) →
  ∃ g' p' st' info,
    param_groups opt' !! gi = Some g' ∧ options g' = options g ∧
    params g' !! j = Some (p', st') ∧
    step_param_full (options g) p st = Ok (p', st', info).
Proof.
  intros Hstep Hg Hslot. unfold MetaplasticAdam_step in Hstep.
  destruct (call_closure closure opt) as [opt1 loss1]. simpl in Hg.
  destruct (mapM _ (param_groups opt1)) as [groups|] eqn:Hgroups; [|done].
  simpl in Hstep. injection Hstep as <- <-.
  destruct (mapM_result_lookup _ _ _ _ _ Hgroups Hg) as (g' & Hg' & Hbody).
  destruct (mapM (step_param (options g)) (params g)) as [slots|] eqn:Hslots;
    [|done].
  simpl in Hbody. injection Hbody as <-.
  destruct (mapM_result_lookup _ _ _ _ _ Hslots Hslot)
    as ([p' st'] & Hslot' & Hp).
  unfold step_param in Hp. simpl in Hp.
  destruct (step_param_full (options g) p st) as [[[p1 st1] info]|] eqn:Hfull;
    [|done].
  simpl in Hp. injection Hp as -> ->.
  exists (Group (options g) slots), p', st', info. done.
Qed.

(** C1.  In a call of [step] that raises nothing, take any parameter that
    has a gradient when the loop reaches it (the options hold a number as
    [metaplasticity]).  The gradient is dense, the step count of the
    parameter goes up by one, and the parameter is updated with the
    quantities this call computes from the state it read (the stored one, or
    zeros) and from the gradient after the weight decay:
    - [exp_avg = exp_avg * beta1 + (1 - beta1) * grad] and
      [exp_avg_sq = exp_avg_sq * beta2 + (1 - beta2) * grad * grad];
    - [denom = sqrt(exp_avg_sq) + eps], with the running maximum
      [max(max_exp_avg_sq, exp_avg_sq)] in the place of [exp_avg_sq] when
      the AMS variant is on;
    - [step_size = lr * sqrt(1 - beta2^step) / (1 - beta1^step)].
    (Arithmetic is that of the real numbers.)  Element by element:
    - a parameter with exactly one dimension becomes
      [param - step_size * exp_avg / denom];
    - a parameter with another number of dimensions becomes
      [param - step_size * u / denom], where [u] is
      [(1 - tanh(metaplasticity * |param|)^2) * exp_avg] if
      [sign(param) * exp_avg > 0], the factor lying in [0, 1] and so
      [|u| <= |exp_avg|], and [u] is [exp_avg] itself if
      [sign(param) * exp_avg <= 0]. *)
Theorem step_applies_metaplastic_rule
    (closure : option (optimizer → optimizer * R)) (opt opt' : optimizer)
    (loss : option R) (gi j : nat) (g : param_group) (p : param)
    (st : option param_state) (gr : gradient) :
  MetaplasticAdam_step closure opt = Ok (opt', loss) →
  param_groups (call_closure closure opt).1 !! gi = Some g →
  params g !! j = Some (p, st) →
  p_grad p = Some gr →
  ∃ g' p' st' inf,
    param_groups opt' !! gi = Some g' ∧
    params g' !! j = Some (p', Some st') ∧
    step_param_full (options g) p st = Ok (p', Some st', Some inf) ∧
    is_sparse gr = false ∧
    step st' = S (from_option step 0%nat st) ∧
    exp_avg st' =
      zip_with (λ a g0, a * (betas (options g)).1
                        + (1 - (betas (options g)).1) * g0)
               (exp_avg (state_or_fresh (options g) p st))
               (decayed_grad (options g) p gr) ∧
    exp_avg_sq st' =
      zip_with (λ a g0, a * (betas (options g)).2
                        + (1 - (betas (options g)).2) * (g0 * g0))
               (exp_avg_sq (state_or_fresh (options g) p st))
               (decayed_grad (options g) p gr) ∧
    (amsgrad (options g) = true →
     ∃ mx0,
       max_exp_avg_sq (state_or_fresh (options g) p st) = Some mx0 ∧
       max_exp_avg_sq st' = Some (zip_with Rmax mx0 (exp_avg_sq st'))) ∧
    denom inf =
      (λ x, sqrt x + eps (options g))
        <$> (if amsgrad (options g)
             then default [] (max_exp_avg_sq st')
             else exp_avg_sq st') ∧
    step_size inf = bias_corrected_step_size (options g) (step st') ∧
    (dim (p_data p) = 1%nat →
     ∀ i x, values (p_data p') !! i = Some x ↔
       ∃ w a d,
         values (p_data p) !! i = Some w ∧ exp_avg st' !! i = Some a ∧
         denom inf !! i = Some d ∧
         x = w - step_size inf * a / d) ∧
    (dim (p_data p) ≠ 1%nat →
     ∀ i x, values (p_data p') !! i = Some x ↔
       ∃ w a d u,
         values (p_data p) !! i = Some w ∧ exp_avg st' !! i = Some a ∧
         denom inf !! i = Some d ∧
         x = w - step_size inf * u / d ∧
         (sign w * a > 0 →
          u = (1 - tanh (metaplasticity (options g) * Rabs w) ^ 2) * a ∧
          0 <= 1 - tanh (metaplasticity (options g) * Rabs w) ^ 2 <= 1 ∧
          Rabs u <= Rabs a) ∧
         (sign w * a <= 0 → u = a)).
Proof.
  intros Hstep Hg Hslot Hgr.
  destruct (MetaplasticAdam_step_slot _ _ _ _ _ _ _ _ _ Hstep Hg Hslot)
    as (g' & p' & st1 & info & Hg' & _ & Hslot' & Hfull).
  destruct (step_param_full_anatomy _ _ _ _ _ _ _ Hgr Hfull)
    as (st2 & inf & -> & -> & Hsp & Hcount & Hm & Hv & Hden & Hss & _ & _
        & Hval & Hmom & _).
  exists g', p', st2, inf.
  split; [done|]. split; [done|]. split; [done|]. split; [done|].
  split; [rewrite Hcount; by destruct st|].
  split; [done|]. split; [done|].
  split.
  { intros Hams. rewrite Hams in Hden.
    destruct Hden as (mx0 & Hmx0 & Hmx & _). by exists mx0. }
  split.
  { destruct (amsgrad (options g)).
    - destruct Hden as (mx0 & _ & -> & ->). done.
    - by destruct Hden as [_ ->]. }
  split; [done|].
  unfold applied_momentum in Hmom. rewrite Hval. split.
  - intros Hdim i x. rewrite decide_True in Hmom by done.
    rewrite addcdiv_lookup, Hmom. split.
    + intros (w & a & d & Hw & Ha & Hd & ->). exists w, a, d.
      repeat (split; [done|]). unfold Rdiv. ring.
    + intros (w & a & d & Hw & Ha & Hd & ->). exists w, a, d.
      repeat (split; [done|]). unfold Rdiv. ring.
  - intros Hdim i x. rewrite decide_False in Hmom by done.
    rewrite addcdiv_lookup, Hmom. split.
    + intros (w & u & d & Hw & Hu & Hd & ->).
      apply metaplastic_momentum_lookup in Hu as (w' & a & Hw' & Ha & Hu).
      assert (w' = w) as -> by congruence.
      exists w, a, d, u. repeat (split; [done|]).
      split; [unfold Rdiv; ring|].
      destruct (decide (sign w * a > 0)) as [Hpos|Hneg]; subst u.
      * split; [|intros; lra]. intros _. split; [done|].
        split; [apply decay_factor_bounds|apply decayed_magnitude].
      * split; [intros; lra|done].
    + intros (w & a & d & u & Hw & Ha & Hd & -> & Hpos & Hneg).
      exists w, u, d. split; [done|]. split; [|split; [done|]].
      * apply metaplastic_momentum_lookup. exists w, a.
        repeat (split; [done|]).
        destruct (decide (sign w * a > 0)) as [H|H].
        -- by apply Hpos.
        -- apply Hneg. lra.
      * unfold Rdiv. ring.
Qed.

(** C7.  One pass of the loop body of [step] for a parameter with a
    gradient ([step] runs it on every parameter and keeps the state it
    returns for the next call, [MetaplasticAdam_step_slot]).  The pass
    decays the two moments with the gradient, and replaces the parameter by
    [param - step_size * momentum / denom]: [denom] is the denominator the
    update divides by.  (Arithmetic is that of the real numbers.)
    Without the AMS variant the denominator is [sqrt(exp_avg_sq) + eps].
    With it, [max_exp_avg_sq] becomes the element-wise maximum of its former
    value and the new [exp_avg_sq], and the denominator is its square root
    plus [eps]; at the next pass for this parameter (same [eps], AMS still
    on) the same holds from the maximum this pass stored, and no element of
    [max_exp_avg_sq] and no element of the denominator is smaller than it
    was. *)
Theorem ams_denominator_never_decreases (h : hyper) (p p' : param)
    (st : option param_state) (st' : param_state) (inf : step_info) :
  step_param_full h p st = Ok (p', Some st', Some inf) →
  (∃ gr,
     p_grad p = Some gr ∧ is_sparse gr = false ∧
     step st' = S (from_option step 0%nat st) ∧
     exp_avg st' =
       zip_with (λ a g, a * (betas h).1 + (1 - (betas h).1) * g)
                (exp_avg (state_or_fresh h p st)) (decayed_grad h p gr) ∧
     exp_avg_sq st' =
       zip_with (λ a g, a * (betas h).2 + (1 - (betas h).2) * (g * g))
                (exp_avg_sq (state_or_fresh h p st)) (decayed_grad h p gr)) ∧
  values (p_data p') =
    addcdiv (values (p_data p)) (- bias_corrected_step_size h (step st'))
            (applied_momentum h p (exp_avg st')) (denom inf) ∧
  (amsgrad h = false →
   denom inf = (λ x, sqrt x + eps h) <$> exp_avg_sq st') ∧
  (amsgrad h = true →
   ∃ mx0 mx1,
     match st with
     | Some s => max_exp_avg_sq s
     | None => Some (zeros_like (p_data p))
     end = Some mx0 ∧
     max_exp_avg_sq st' = Some mx1 ∧
     mx1 = zip_with Rmax mx0 (exp_avg_sq st') ∧
     denom inf = (λ x, sqrt x + eps h) <$> mx1 ∧
     ∀ h2 p2 p2' st2 inf2,
       amsgrad h2 = true → eps h2 = eps h →
       step_param_full h2 p2 (Some st') = Ok (p2', Some st2, Some inf2) →
       ∃ mx2,
         max_exp_avg_sq st2 = Some mx2 ∧
         mx2 = zip_with Rmax mx1 (exp_avg_sq st2) ∧
         denom inf2 = (λ x, sqrt x + eps h2) <$> mx2 ∧
         values (p_data p2') =
           addcdiv (values (p_data p2))
                   (- bias_corrected_step_size h2 (step st2))
                   (applied_momentum h2 p2 (exp_avg st2)) (denom inf2) ∧
         (∀ i x y, mx1 !! i = Some x → mx2 !! i = Some y → x <= y) ∧
         (∀ i x y, denom inf !! i = Some x → denom inf2 !! i = Some y →
                   x <= y)).
Proof.
  assert (∀ h0 p0 p0' st0 st0' inf0,
            step_param_full h0 p0 st0 = Ok (p0', Some st0', Some inf0) →
            ∃ gr0,
              p_grad p0 = Some gr0 ∧ is_sparse gr0 = false ∧
              step st0' = S (from_option step 0%nat st0) ∧
              exp_avg st0' =
                zip_with (λ a g, a * (betas h0).1 + (1 - (betas h0).1) * g)
                         (exp_avg (state_or_fresh h0 p0 st0))
                         (decayed_grad h0 p0 gr0) ∧
              exp_avg_sq st0' =
                zip_with
                  (λ a g, a * (betas h0).2 + (1 - (betas h0).2) * (g * g))
                  (exp_avg_sq (state_or_fresh h0 p0 st0))
                  (decayed_grad h0 p0 gr0) ∧
              values (p_data p0') =
                addcdiv (values (p_data p0))
                        (- bias_corrected_step_size h0 (step st0'))
                        (applied_momentum h0 p0 (exp_avg st0'))
                        (denom inf0) ∧
              (amsgrad h0 = false →
               denom inf0 = (λ x, sqrt x + eps h0) <$> exp_avg_sq st0') ∧
              (amsgrad h0 = true →
               ∃ mx0,
                 match st0 with
                 | Some s => max_exp_avg_sq s
                 | None => Some (zeros_like (p_data p0))
                 end = Some mx0 ∧
                 max_exp_avg_sq st0' =
                   Some (zip_with Rmax mx0 (exp_avg_sq st0')) ∧
                 denom inf0 =
                   (λ x, sqrt x + eps h0)
                     <$> zip_with Rmax mx0 (exp_avg_sq st0'))) as Hone.
  { intros h0 p0 p0' st0 st0' inf0 Hstep0.
    destruct (p_grad p0) as [gr0|] eqn:Hgr0;
      [|unfold step_param_full in Hstep0; by rewrite Hgr0 in Hstep0].
    destruct (step_param_full_anatomy _ _ _ _ _ _ _ Hgr0 Hstep0)
      as (st1 & inf1 & [= <-] & [= <-] & Hsp & Hcount & Hm & Hv & Hden & Hss
          & _ & _ & Hval & Hmom & _).
    exists gr0. split; [done|]. split; [done|].
    split; [rewrite Hcount; by destruct st0|].
    split; [done|]. split; [done|].
    split; [by rewrite Hval, Hss, Hmom|].
    destruct (amsgrad h0) eqn:Hams.
    - split; [done|]. intros _.
      destruct Hden as (mx0 & Hmx0 & Hmx & Hd). exists mx0.
      split; [|done]. destruct st0 as [s|]; simpl in Hmx0; [done|].
      by rewrite Hams in Hmx0.
    - split; [|done]. intros _. by destruct Hden as [_ ->]. }
  intros Hstep.
  destruct (Hone _ _ _ _ _ _ Hstep)
    as (gr & Hgr & Hsp & Hcount & Hm & Hv & Hval & Hoff & Hon).
  split; [by exists gr|]. split; [done|]. split; [done|]. intros Hams.
  destruct (Hon Hams) as (mx0 & Hprev & Hmx & Hden).
  exists mx0, (zip_with Rmax mx0 (exp_avg_sq st')).
  repeat (split; [done|]).
  intros h2 p2 p2' st2 inf2 Hams2 Heps Hstep2.
  destruct (Hone _ _ _ _ _ _ Hstep2)
    as (gr2 & _ & _ & _ & _ & _ & Hval2 & _ & Hon2).
  destruct (Hon2 Hams2) as (mx1 & Hprev2 & Hmx2 & Hden2).
  rewrite Hmx in Hprev2. injection Hprev2 as <-.
  eexists. split; [exact Hmx2|]. split; [done|]. split; [done|].
  split; [done|].
  assert (∀ i x y,
            zip_with Rmax mx0 (exp_avg_sq st') !! i = Some x →
            zip_with Rmax (zip_with Rmax mx0 (exp_avg_sq st'))
                     (exp_avg_sq st2) !! i = Some y →
            x <= y) as Hmono.
  { intros i x y Hx Hy.
    apply lookup_zip_with_Some in Hy as (x' & v & -> & Hx' & _).
    rewrite Hx in Hx'. injection Hx' as <-. apply Rmax_l. }
  split; [exact Hmono|].
  intros i x y. rewrite Hden, Hden2, !list_lookup_fmap, Heps.
  destruct (zip_with Rmax mx0 (exp_avg_sq st') !! i) as [a|] eqn:Ha; [|done].
  destruct (zip_with Rmax _ (exp_avg_sq st2) !! i) as [b|] eqn:Hb; [|done].
  simpl. intros [= <-] [= <-].
  pose proof (sqrt_le_1_alt _ _ (Hmono _ _ _ Ha Hb)). lra.
Qed.

(** A call of [step] on an optimizer of one group returns when the loop body
    returns for each of its parameters. *)
Lemma MetaplasticAdam_step_one_group (h : hyper)
    (slots slots' : list (param * option param_state)) :
  mapM (step_param h) slots = Ok slots' →
  MetaplasticAdam_step None (Optimizer [Group h slots])
    = Ok (Optimizer [Group h slots'], None).
Proof.
  intros Hslots. unfold MetaplasticAdam_step. simpl. by rewrite Hslots.
Qed.

Lemma step_param_returns h p st gr :
  p_grad p = Some gr → is_sparse gr = false →
  (amsgrad h = true →
   st = None ∨ ∃ s mx, st = Some s ∧ max_exp_avg_sq s = Some mx) →
  0 <= (betas h).1 < 1 → 0 <= (betas h).2 < 1 →
  ∃ p' st', step_param h (p, st) = Ok (p', Some st').
Proof.
  intros Hg Hs Hams Hb1 Hb2.
  destruct (step_param_full_returns h p st gr Hg Hs Hams Hb1 Hb2)
    as (p' & st' & inf & Hfull).
  exists p', st'. unfold step_param. simpl. by rewrite Hfull.
Qed.

Lemma step_applies_metaplastic_rule_witness :
  ∃ opt' loss g' p' st' inf,
    MetaplasticAdam_step None optimizer0 = Ok (opt', loss) ∧
    param_groups optimizer0 !! 0%nat
      = Some (Group (default_options false)
                    [(weight0, None); (bias0, None)]) ∧
    p_grad weight0 = Some (Gradient [1; 1] false) ∧
    param_groups opt' !! 0%nat = Some g' ∧
    params g' !! 0%nat = Some (p', Some st') ∧
    step_param_full (default_options false) weight0 None
      = Ok (p', Some st', Some inf) ∧
    step st' = 1%nat ∧
    step_size inf = bias_corrected_step_size (default_options false) 1 ∧
    denom inf
      = (λ x, sqrt x + eps (default_options false)) <$> exp_avg_sq st' ∧
    (dim (p_data weight0) ≠ 1%nat →
     ∀ i x, values (p_data p') !! i = Some x ↔
       ∃ w a d u,
         values (p_data weight0) !! i = Some w ∧ exp_avg st' !! i = Some a ∧
         denom inf !! i = Some d ∧
         x = w - step_size inf * u / d ∧
         (sign w * a > 0 →
          u = (1 - tanh (1 * Rabs w) ^ 2) * a ∧
          0 <= 1 - tanh (1 * Rabs w) ^ 2 <= 1 ∧
          Rabs u <= Rabs a) ∧
         (sign w * a <= 0 → u = a)).
Proof.
  assert (0 <= 9 / 10 < 1 ∧ 0 <= 999 / 1000 < 1) as [Hb1 Hb2] by lra.
  destruct (step_param_returns (default_options false) weight0 None
              (Gradient [1; 1] false) eq_refl eq_refl
              (λ H, or_introl eq_refl) Hb1 Hb2) as (pw & sw & Hw).
  destruct (step_param_returns (default_options false) bias0 None
              (Gradient [1; 1] false) eq_refl eq_refl
              (λ H, or_introl eq_refl) Hb1 Hb2) as (pb & sb & Hb).
  assert (MetaplasticAdam_step None optimizer0
          = Ok (Optimizer [Group (default_options false)
                                 [(pw, Some sw); (pb, Some sb)]], None)) as E.
  { apply MetaplasticAdam_step_one_group.
    change (mapM (step_param (default_options false))
                 [(weight0, None); (bias0, None)])
      with (x ← step_param (default_options false) (weight0, None);
            k ← (y ← step_param (default_options false) (bias0, None);
                 k0 ← mret []; mret (y :: k0));
            mret (x :: k)).
    rewrite Hw, Hb. reflexivity. }
  destruct (step_applies_metaplastic_rule None optimizer0 _ _ 0 0
              (Group (default_options false) [(weight0, None); (bias0, None)])
              weight0 None (Gradient [1; 1] false) E eq_refl eq_refl eq_refl)
    as (g' & p' & st' & inf & Hg & Hs & Hfull & _ & Hcount & _ & _ & _ & Hden
        & Hss & _ & Hweight).
  eexists _, _, g', p', st', inf.
  split; [exact E|]. split; [reflexivity|]. split; [reflexivity|].
  split; [exact Hg|]. split; [exact Hs|]. split; [exact Hfull|].
  split; [exact Hcount|]. split; [rewrite Hss, Hcount; reflexivity|].
  split; [exact Hden|]. exact Hweight.
Defined.

Lemma ams_denominator_never_decreases_witness :
  ∃ p1 st1 inf1 p2 st2 inf2,
    step_param_full (default_options true) weight0 None
      = Ok (p1, Some st1, Some inf1) ∧
    step_param_full (default_options true) weight0 (Some st1)
      = Ok (p2, Some st2, Some inf2) ∧
    values (p_data p1) =
      addcdiv (values (p_data weight0))
              (- bias_corrected_step_size (default_options true) (step st1))
              (applied_momentum (default_options true) weight0 (exp_avg st1))
              (denom inf1) ∧
    ∃ mx1 mx2,
      max_exp_avg_sq st1 = Some mx1 ∧ max_exp_avg_sq st2 = Some mx2 ∧
      denom inf1 = (λ x, sqrt x + eps (default_options true)) <$> mx1 ∧
      (∀ i x y, mx1 !! i = Some x → mx2 !! i = Some y → x <= y) ∧
      (∀ i x y, denom inf1 !! i = Some x → denom inf2 !! i = Some y →
                x <= y).
Proof.
  assert (0 <= 9 / 10 < 1 ∧ 0 <= 999 / 1000 < 1) as [Hb1 Hb2] by lra.
  destruct (step_param_full_returns (default_options true) weight0 None
              (Gradient [1; 1] false) eq_refl eq_refl
              (λ H, or_introl eq_refl) Hb1 Hb2) as (p1 & st1 & inf1 & E1).
  destruct (ams_denominator_never_decreases _ _ _ _ _ _ E1)
    as (_ & Hval & _ & Hon).
  destruct (Hon eq_refl) as (mx0 & mx1 & _ & Hmx1 & _ & Hden & Hnext).
  destruct (step_param_full_returns (default_options true) weight0 (Some st1)
              (Gradient [1; 1] false) eq_refl eq_refl
              (λ H, or_intror (ex_intro _ st1 (ex_intro _ mx1
                                 (conj eq_refl Hmx1)))) Hb1 Hb2)
    as (p2 & st2 & inf2 & E2).
  destruct (Hnext (default_options true) weight0 p2 st2 inf2 eq_refl eq_refl
              E2) as (mx2 & Hmx2 & _ & _ & _ & Hm & Hd).
  exists p1, st1, inf1, p2, st2, inf2.
  split; [exact E1|]. split; [exact E2|]. split; [exact Hval|].
  exists mx1, mx2. done.
Defined.

End OptimizerFacts.

(** C8.  The constructor raises a ValueError, without reaching the
    constructor of the base class, exactly when a hyperparameter is out of
    range ([lr < 0], [eps < 0], [beta1] or [beta2] outside [0, 1)); when all
    four are in range, no check raises and the construction is that of the
    base class with the given defaults.  In particular it raises for
    [lr = -1], for [eps = -1], for [betas = (1.0, 0.5)] and for
    [betas = (0.5, 1.0)], the other arguments at their defaults. *)
Theorem init_rejects_out_of_range_hyperparameters (ps : list param)
    (lr0 : R) (betas0 : R * R) (meta eps0 wd : R) (ams : bool) :
  (out_of_range lr0 eps0 betas0 →
   ∀ base, ∃ msg,
     MetaplasticAdam_init base ps lr0 betas0 meta eps0 wd ams
       = Raise (ValueError msg)) ∧
  (¬ out_of_range lr0 eps0 betas0 →
   ∀ base,
     MetaplasticAdam_init base ps lr0 betas0 meta eps0 wd ams
       = base ps (Hyper lr0 betas0 meta eps0 wd ams)) ∧
  ((∀ base, ∃ e,
      MetaplasticAdam_init base ps lr0 betas0 meta eps0 wd ams = Raise e)
   ↔ out_of_range lr0 eps0 betas0) ∧
  (∀ base, ∃ msg,
     MetaplasticAdam_init base ps (-1)%R (9 / 10, 999 / 1000)%R meta
                          (1 / 100000000)%R wd ams
       = Raise (ValueError msg)) ∧
  (∀ base, ∃ msg,
     MetaplasticAdam_init base ps (1 / 1000)%R (9 / 10, 999 / 1000)%R meta
                          (-1)%R wd ams
       = Raise (ValueError msg)) ∧
  (∀ base, ∃ msg,
     MetaplasticAdam_init base ps (1 / 1000)%R (1, 1 / 2)%R meta
                          (1 / 100000000)%R wd ams
       = Raise (ValueError msg)) ∧
  (∀ base, ∃ msg,
     MetaplasticAdam_init base ps (1 / 1000)%R (1 / 2, 1)%R meta
                          (1 / 100000000)%R wd ams
       = Raise (ValueError msg)).
Proof.
  assert (∀ l e b, out_of_range l e b →
            ∀ base, ∃ msg,
              MetaplasticAdam_init base ps l b meta e wd ams
                = Raise (ValueError msg)) as Hbad.
  { intros l e b Hout base. unfold MetaplasticAdam_init, out_of_range in *.
    repeat (case_bool_decide; simpl; eauto). lra. }
  assert (∀ l e b, ¬ out_of_range l e b →
            ∀ base,
              MetaplasticAdam_init base ps l b meta e wd ams
                = base ps (Hyper l b meta e wd ams)) as Hgood.
  { intros l e b Hin base. unfold MetaplasticAdam_init, out_of_range in *.
    repeat (case_bool_decide; simpl; try done); exfalso; apply Hin; lra. }
  split; [apply Hbad|]. split; [apply Hgood|]. split.
  - split; [|intros Hout base; destruct (Hbad _ _ _ Hout base); eauto].
    intros Hall.
    destruct (Hall (λ _ _, Ok (Optimizer []))) as [e He].
    destruct (decide (lr0 < 0)%R); [by left|].
    destruct (decide (eps0 < 0)%R); [by right; left|].
    destruct (decide (0 <= betas0.1 < 1)%R); [|by right; right; left].
    destruct (decide (0 <= betas0.2 < 1)%R); [|by right; right; right].
    rewrite Hgood in He; [done|]. unfold out_of_range. tauto.
  - repeat split; apply Hbad; unfold out_of_range; simpl; lra.
Qed.

Lemma init_rejects_out_of_range_hyperparameters_witness :
  (out_of_range (-1)%R (1 / 100000000)%R (9 / 10, 999 / 1000)%R ∧
   ∃ msg,
     MetaplasticAdam_init (λ _ _, Ok optimizer0) [weight0] (-1)%R
                          (9 / 10, 999 / 1000)%R 1%R (1 / 100000000)%R 0%R
                          false
       = Raise (ValueError msg)) ∧
  (¬ out_of_range (1 / 1000)%R (1 / 100000000)%R (9 / 10, 999 / 1000)%R ∧
   MetaplasticAdam_init (λ _ _, Ok optimizer0) [weight0] (1 / 1000)%R
                        (9 / 10, 999 / 1000)%R 1%R (1 / 100000000)%R 0%R
                        false
     = Ok optimizer0).
Proof.
  split.
  - assert (out_of_range (-1)%R (1 / 100000000)%R (9 / 10, 999 / 1000)%R) as Hout
      by (left; lra).
    split; [exact Hout|].
    destruct (init_rejects_out_of_range_hyperparameters
                [weight0] (-1)%R (9 / 10, 999 / 1000)%R 1%R
                (1 / 100000000)%R 0%R false) as (Hbad & _).
    exact (Hbad Hout (λ _ _, Ok optimizer0)).
  - assert (¬ out_of_range (1 / 1000)%R (1 / 100000000)%R (9 / 10, 999 / 1000)%R)
      as Hin by (unfold out_of_range; simpl; lra).
    split; [exact Hin|].
    destruct (init_rejects_out_of_range_hyperparameters
                [weight0] (1 / 1000)%R (9 / 10, 999 / 1000)%R 1%R
                (1 / 100000000)%R 0%R false) as (_ & Hgood & _).
    exact (Hgood Hin (λ _ _, Ok optimizer0)).
Defined.

(** ** The Bayesian trainer *)

Section TrainerFacts.
Local Open Scope R_scope.
Context {Model input output OptParams Criterion Device Scheduler : Type}.
Context (forward : Model → input → output).
Context (eval_mode : Model → Model).
Context (vector_to_parameters : list R → Model → Model).
Context (bernoulli : nat → list R → list R).

Implicit Types (self : gmap string (@attr Model Criterion Device Scheduler)).
Implicit Types (kwargs : gmap string (@kwarg Scheduler)).

(** With no sample asked for, [predict] makes one forward pass, on the
    parameters [+1] where [mu] is positive and [-1] elsewhere. *)
Lemma predict_no_samples self (m : Model) (o : optim)
    (mu : list R) (inputs : input) (n_samples : Z) :
  self !! "model" = Some (AModel m) →
  self !! "optimizer" = Some (AOptimizer o) →
  state o !! "mu" = Some mu →
  (n_samples ≤ 0)%Z →
  let m1 :=
    vector_to_parameters ((λ x, if decide (0 < x) then 1 else -1) <$> mu)
                         (eval_mode m) in
  predict forward eval_mode vector_to_parameters bernoulli self inputs
          n_samples
    = (<["model" := AModel m1]> self, Ok [forward m1 inputs]).
Proof.
  intros Hm Ho Hmu Hn. unfold predict. rewrite Hm.
  rewrite lookup_insert_ne by done. rewrite Ho.
  replace (Z.to_nat n_samples) with 0%nat by lia. simpl.
  unfold map_noise, state_tensor. rewrite Hmu. simpl.
  rewrite insert_insert_eq.
  assert ((λ x, 2 * x - 1) <$>
            ((λ x, if bool_decide (x <= 0) then 0 else 1) <$> mu)
          = (λ x, if decide (0 < x) then 1 else -1) <$> mu) as ->; [|done].
  rewrite <- list_fmap_compose. apply list_fmap_ext. intros _ x _. simpl.
  case_bool_decide; case_decide; lra.
Qed.

Lemma GPUTrainer_init_keeps_test_mcmc_samples self self'
    (model : Model) (optimizer : Model → OptParams → result optim)
    (optimizer_parameters : OptParams) (criterion : Criterion)
    (device : Device) kwargs :
  GPUTrainer_init self model optimizer optimizer_parameters criterion device
                  kwargs = Ok self' →
  self' !! "test_mcmc_samples" = self !! "test_mcmc_samples".
Proof.
  unfold GPUTrainer_init.
  destruct (optimizer model optimizer_parameters) as [o|]; [|done]. simpl.
  destruct (kwargs !! "scheduler") as [sch|].
  - destruct (kwargs !! "scheduler_parameters") as [sp|]; [|done].
    destruct sch as [|cls]; [done|]. destruct sp as [[| | |d]|]; try done.
    destruct (cls o d) as [s|]; [|done]. simpl. intros [= <-].
    by rewrite !lookup_insert_ne by done.
  - intros [= <-]. by rewrite !lookup_insert_ne by done.
Qed.

(** C4, amended.  [predict] with [n_samples = 0] returns exactly one
    prediction, whatever [lambda] and the random draws are: the forward
    pass of the model (in evaluation mode) once the vector that is [+1]
    where [mu] is positive and [-1] where [mu] is zero or negative has been
    written into its parameters.  That is [mu <= 0] mapped to 0, the rest to
    1, then {0,1} mapped to {-1,+1}. *)
Theorem predict_zero_samples_is_map self (m : Model) (o : optim)
    (mu : list R) (inputs : input) :
  self !! "model" = Some (AModel m) →
  self !! "optimizer" = Some (AOptimizer o) →
  state o !! "mu" = Some mu →
  ∃ w,
    predict forward eval_mode vector_to_parameters bernoulli self inputs 0
      = (<["model" := AModel (vector_to_parameters w (eval_mode m))]> self,
         Ok [forward (vector_to_parameters w (eval_mode m)) inputs]) ∧
    length w = length mu ∧
    ∀ i x, mu !! i = Some x →
           w !! i = Some (if decide (x <= 0) then -1 else 1).
Proof.
  intros Hm Ho Hmu.
  exists ((λ x, if decide (0 < x) then 1 else -1) <$> mu).
  split; [by apply (predict_no_samples self m o)|].
  split; [by rewrite length_fmap|].
  intros i x Hx. rewrite list_lookup_fmap, Hx. simpl. f_equal.
  repeat case_decide; lra.
Qed.

(** C9.  When [training_parameters] has no entry [test_mcmc_samples], the
    constructor raises a ValueError whatever the other arguments are: the
    model is not stored and the optimizer class is not called.  When it has
    one, the value is stored on the object and the construction goes on as
    that of the base class, which leaves the stored value in place. *)
Theorem bayes_trainer_needs_test_mcmc_samples self (model : Model)
    (optimizer : Model → OptParams → result optim)
    (optimizer_parameters : OptParams) (criterion : Criterion)
    (device : Device) kwargs
    (training_parameters : gmap string value) :
  kwargs !! "training_parameters" = Some (KValue (VDict training_parameters)) →
  (training_parameters !! "test_mcmc_samples" = None →
   ∃ msg,
     BayesTrainer_init self model optimizer optimizer_parameters criterion
                       device kwargs = Raise (ValueError msg)) ∧
  (∀ v, training_parameters !! "test_mcmc_samples" = Some v →
     BayesTrainer_init self model optimizer optimizer_parameters criterion
                       device kwargs
       = GPUTrainer_init (<["test_mcmc_samples" := AValue v]> self) model
                         optimizer optimizer_parameters criterion device
                         kwargs ∧
     ∀ self',
       BayesTrainer_init self model optimizer optimizer_parameters criterion
                         device kwargs = Ok self' →
       self' !! "test_mcmc_samples" = Some (AValue v)).
Proof.
  intros Hkw. unfold BayesTrainer_init. rewrite Hkw. split.
  - intros ->. eauto.
  - intros v ->. split; [done|]. intros self' Hinit.
    apply GPUTrainer_init_keeps_test_mcmc_samples in Hinit.
    by rewrite Hinit, lookup_insert_eq.
Qed.

End TrainerFacts.

Lemma predict_zero_samples_is_map_witness :
  trainer0 !! "model" = Some (AModel [0%R]) ∧
  ∃ w,
    predict echo_forward echo_eval echo_write echo_bernoulli trainer0 () 0
      = (<["model" := AModel (echo_write w (echo_eval [0%R]))]> trainer0,
         Ok [echo_forward (echo_write w (echo_eval [0%R])) ()]) ∧
    length w = 1 ∧
    ∀ i x, [0%R] !! i = Some x →
           w !! i = Some (if decide (x <= 0)%R then (-1)%R else 1%R).
Proof.
  split; [reflexivity|].
  apply (predict_zero_samples_is_map echo_forward echo_eval echo_write
           echo_bernoulli trainer0 [0%R] (Optim {["mu" := [0%R]]}) [0%R] ());
    reflexivity.
Defined.

(** C4 as the specification words it, refuted: with [mu = [0]] the one
    prediction is made on the parameter [-1], not on the parameter [+1]
    that "positive-or-zero maps to 1" gives. *)
Lemma predict_zero_samples_maps_zero_to_minus_one :
  (predict echo_forward echo_eval echo_write echo_bernoulli trainer0 () 0).2
    = Ok [[(-1)%R]] ∧
  (predict echo_forward echo_eval echo_write echo_bernoulli trainer0 () 0).2
    ≠ Ok [echo_forward (echo_write (spec_map_weights [0%R]) (echo_eval [0%R]))
                       ()].
Proof.
  rewrite (predict_no_samples echo_forward echo_eval echo_write
             echo_bernoulli trainer0 [0%R] (Optim {["mu" := [0%R]]}) [0%R]);
    [|reflexivity..|lia].
  unfold echo_forward, echo_write, spec_map_weights. simpl.
  rewrite decide_False by lra.
  rewrite bool_decide_eq_true_2 by lra.
  split; [reflexivity|]. intros [= H]. lra.
Qed.

Lemma bayes_trainer_needs_test_mcmc_samples_witness :
  (kwargs_without_samples !! "training_parameters"
     = Some (KValue (VDict {["n_epochs" := VInt 1]})) ∧
   ∃ msg,
     BayesTrainer_init (∅ : gmap string (@attr (list R) () () ())) [0%R]
                       (λ _ (_ : ()), Raise (RuntimeError "no optimizer"))
                       () () () kwargs_without_samples
       = Raise (ValueError msg)) ∧
  (kwargs_with_samples !! "training_parameters"
     = Some (KValue (VDict {["test_mcmc_samples" := VInt 1]})) ∧
   ∀ self',
     BayesTrainer_init (∅ : gmap string (@attr (list R) () () ())) [0%R]
                       (λ _ (_ : ()), Ok (Optim {["mu" := [0%R]]}))
                       () () () kwargs_with_samples = Ok self' →
     self' !! "test_mcmc_samples" = Some (AValue (VInt 1))).
Proof.
  split.
  - split; [reflexivity|].
    destruct (bayes_trainer_needs_test_mcmc_samples
                (∅ : gmap string (@attr (list R) () () ())) [0%R]
                (λ _ (_ : ()), Raise (RuntimeError "no optimizer"))
                () () () kwargs_without_samples {["n_epochs" := VInt 1]}
                eq_refl) as [Hnone _].
    apply Hnone. reflexivity.
  - split; [reflexivity|].
    destruct (bayes_trainer_needs_test_mcmc_samples
                (∅ : gmap string (@attr (list R) () () ())) [0%R]
                (λ _ (_ : ()), Ok (Optim {["mu" := [0%R]]}))
                () () () kwargs_with_samples
                {["test_mcmc_samples" := VInt 1]} eq_refl) as [_ Hsome].
    destruct (Hsome (VInt 1) eq_refl) as [_ Hstored]. exact Hstored.
Defined.

(** * Further properties of the data pipeline *)

Section BatchFacts.
Context {A : Type}.
Implicit Types (d : GPUTensorDataset A) (ld : GPUDataLoader A).
Implicit Types (p idx : list nat).

Lemma gather_Ok {X} (l : list X) idx (k : list X) :
  gather l idx = Ok k ↔ Forall2 (λ j x, l !! j = Some x) idx k.
Proof.
  unfold gather. rewrite <- mapM_Some.
  destruct (mapM _ idx); split; intros H; by simplify_eq.
Qed.

Lemma gather_Raise {X} (l : list X) idx (e : exn) :
  gather l idx = Raise e ↔ e = IndexError ∧ Exists (λ j, length l ≤ j) idx.
Proof.
  unfold gather. destruct (mapM _ idx) as [k|] eqn:E.
  - split; [done|]. intros [_ Hex]. apply mapM_Some_1 in E.
    apply Exists_exists in Hex as (j & Hj & Hlen).
    apply list_elem_of_lookup in Hj as [i Hi].
    destruct (Forall2_lookup_l _ _ _ _ _ E Hi) as (x & _ & Hx).
    apply lookup_lt_Some in Hx. lia.
  - apply mapM_None_1 in E. split.
    + intros [= <-]. split; [done|].
      eapply Exists_impl; [exact E|]. intros j Hj. simpl in Hj.
      by apply lookup_ge_None.
    + by intros [-> _].
Qed.

(** X1.  Indexing a dataset with a list of indices.  When it returns, the
    batch has one sample per index, in the order of the indices, and sample
    [k] of the batch is the features and the label the dataset has at the
    [k]-th index: features and labels stay paired.  It raises, and then an
    IndexError, exactly when an index is beyond the features or beyond the
    labels. *)
Theorem getitem_pairs_features_and_labels d idx :
  (∀ t y, getitem d idx = Ok (t, y) →
     item_shape t = item_shape (data d) ∧
     length (rows t) = length idx ∧ length y = length idx ∧
     ∀ k j, idx !! k = Some j →
       j < dataset_len d ∧
       rows t !! k = rows (data d) !! j ∧ y !! k = targets d !! j) ∧
  (∀ e, getitem d idx = Raise e ↔
     e = IndexError ∧
     Exists (λ j, dataset_len d ≤ j ∨ length (targets d) ≤ j) idx).
Proof.
  unfold getitem, dataset_len. split.
  - intros t y Hget.
    destruct (gather (rows (data d)) idx) as [x|] eqn:Hx; [|done].
    simpl in Hget.
    destruct (gather (targets d) idx) as [y'|] eqn:Hy; [|done].
    simpl in Hget. injection Hget as <- <-. simpl.
    apply gather_Ok in Hx, Hy. split; [done|].
    split; [symmetry; by eapply Forall2_length|].
    split; [symmetry; by eapply Forall2_length|].
    intros k j Hk.
    destruct (Forall2_lookup_l _ _ _ _ _ Hx Hk) as (r & Hr & Hjr).
    destruct (Forall2_lookup_l _ _ _ _ _ Hy Hk) as (c & Hc & Hjc).
    split; [by eapply lookup_lt_Some|]. by rewrite Hr, Hc, Hjr, Hjc.
  - intros e.
    destruct (gather (rows (data d)) idx) as [x|e1] eqn:Hx; simpl.
    + destruct (gather (targets d) idx) as [y|e2] eqn:Hy; simpl.
      * split; [done|]. intros [_ Hex]. apply gather_Ok in Hx, Hy.
        apply Exists_exists in Hex as (j & Hj & Hlen).
        apply list_elem_of_lookup in Hj as [i Hi].
        destruct (Forall2_lookup_l _ _ _ _ _ Hx Hi) as (? & _ & Hr).
        destruct (Forall2_lookup_l _ _ _ _ _ Hy Hi) as (? & _ & Hc).
        apply lookup_lt_Some in Hr, Hc. lia.
      * apply gather_Raise in Hy as [-> Hex]. split.
        -- intros [= <-]. split; [done|].
           eapply Exists_impl; [exact Hex|]. intros; by right.
        -- by intros [-> _].
    + apply gather_Raise in Hx as [-> Hex]. split.
      * intros [= <-]. split; [done|].
        eapply Exists_impl; [exact Hex|]. intros; by left.
      * by intros [-> _].
Qed.

End BatchFacts.

Lemma getitem_pairs_features_and_labels_witness :
  getitem (synthetic 4) [3; 0]
    = Ok (Tensor [1] [[3]; [0]]%Z, [3; 0]%Z) ∧
  (rows (Tensor [1] [[3]; [0]]%Z) !! 0 = rows (data (synthetic 4)) !! 3 ∧
   [3; 0]%Z !! 0 = targets (synthetic 4) !! 3) ∧
  getitem (synthetic 4) [1; 4] = Raise IndexError.
Proof.
  destruct (getitem_pairs_features_and_labels (synthetic 4) [3; 0])
    as [Hok _].
  destruct (Hok (Tensor [1] [[3]; [0]]%Z) [3; 0]%Z eq_refl)
    as (_ & _ & _ & Hk).
  destruct (Hk 0 3 eq_refl) as (_ & Hr & Hl).
  split; [reflexivity|]. split; [by split|].
  apply (getitem_pairs_features_and_labels (synthetic 4) [1; 4]).
  split; [reflexivity|]. apply Exists_cons_tl, Exists_cons_hd. left.
  apply Nat.le_refl.
Defined.

Section TraversalFacts.
Context {A : Type}.
Implicit Types (d : GPUTensorDataset A) (ld : GPUDataLoader A).
Implicit Types (p idx : list nat).

Lemma windows_concat k b : ∀ i p,
  concat (windows k b i p) = take (k * b) (drop i p).
Proof.
  induction k as [|k IH]; intros i p; [done|].
  simpl. rewrite IH, <- (take_take_drop (drop i p) b (k * b)).
  by rewrite drop_drop.
Qed.

Lemma windows_length k b : ∀ i p, length (windows k b i p) = k.
Proof. induction k as [|k IH]; intros i p; simpl; [done|]. by rewrite IH. Qed.

(** X2.  One traversal of a loader with drop_last=True, whatever the
    dataset size and the (positive) batch size: it returns
    [len(dataset) // batch_size] batches of [batch_size] samples, the samples
    at consecutive windows of the permutation drawn by [__iter__]; together
    the windows are the first [(len(dataset) // batch_size) * batch_size]
    entries of the permutation, so no sample is returned twice.  [__len__]
    is the number of batches returned, the batch size is unchanged, and the
    next call of [__next__] raises StopIteration. *)
Theorem traverse_drop_last ld (draw : list nat) (extra : nat) :
  drop_last ld = true → 0 < batch_size ld →
  length (targets (dataset ld)) = dataset_len (dataset ld) →
  draw ≡ₚ seq 0 (dataset_len (dataset ld)) →
  ∃ ld' bs p ws,
    traverse (dataset_len (dataset ld) `div` batch_size ld + 1 + extra)
             draw ld = Some (ld', Ok bs) ∧
    perm (__iter__ draw ld) = Some p ∧
    Forall2 (λ idx bt, getitem (dataset ld) idx = Ok bt ∧
                       batch_len bt = batch_size ld) ws bs ∧
    concat ws
      = take (dataset_len (dataset ld) `div` batch_size ld * batch_size ld)
             p ∧
    NoDup (concat ws) ∧
    __len__ ld = Ok (length bs) ∧
    batch_size ld' = batch_size ld ∧
    __next__ ld' = (ld', Raise StopIteration).
Proof.
  intros Hd Hb Ht Hdraw.
  destruct (iter_in_range draw ld Ht Hdraw) as (p & Hp & Hperm & Hr).
  destruct (drain_drop_last (dataset_len (dataset ld) `div` batch_size ld)
              (__iter__ draw ld) 0 p extra)
    as (ld' & bs & Hdr & Hall & Hstop & Hbs & _);
    [done..|simpl; lia| |].
  { simpl. by rewrite Nat.sub_0_r. }
  simpl in Hall, Hbs.
  exists ld', bs, p,
    (windows (dataset_len (dataset ld) `div` batch_size ld) (batch_size ld)
             0 p).
  unfold traverse.
  replace (dataset_len (dataset ld) `div` batch_size ld + 1 + extra)
    with (S (dataset_len (dataset ld) `div` batch_size ld) + extra) by lia.
  split; [done|]. split; [done|]. split; [done|].
  rewrite windows_concat, drop_0. split; [done|]. split.
  - refine (sublist_NoDup _ _ _ (sublist_take p _)).
    rewrite Hperm. apply NoDup_seq.
  - split; [|done]. unfold __len__.
    rewrite bool_decide_eq_false_2 by lia.
    apply Forall2_length in Hall. rewrite windows_length in Hall.
    by rewrite <- Hall.
Qed.

End TraversalFacts.

Lemma traverse_drop_last_witness :
  ∃ ld' bs p ws,
    traverse 4 [9; 8; 7; 6; 5; 4; 3; 2; 1; 0]
             (GPUDataLoader_init (synthetic 10) 3 true true)
      = Some (ld', Ok bs) ∧
    perm (__iter__ [9; 8; 7; 6; 5; 4; 3; 2; 1; 0]
                   (GPUDataLoader_init (synthetic 10) 3 true true))
      = Some p ∧
    Forall2 (λ idx bt, getitem (synthetic 10) idx = Ok bt ∧ batch_len bt = 3)
            ws bs ∧
    concat ws = take 9 p ∧ NoDup (concat ws) ∧
    __len__ (GPUDataLoader_init (synthetic 10) 3 true true)
      = Ok (length bs) ∧
    batch_size ld' = 3 ∧ __next__ ld' = (ld', Raise StopIteration).
Proof.
  apply (traverse_drop_last (GPUDataLoader_init (synthetic 10) 3 true true)
           [9; 8; 7; 6; 5; 4; 3; 2; 1; 0] 0);
    [reflexivity|simpl; lia|reflexivity|].
  exact (reverse_Permutation (seq 0 10)).
Defined.

Section KeepLastFacts.
Context {A : Type}.
Implicit Types (d : GPUTensorDataset A) (ld : GPUDataLoader A).
Implicit Types (p idx : list nat).

Lemma next_short_keep_window ld i p :
  index ld = Some i → perm ld = Some p → in_range (dataset ld) p →
  drop_last ld = false →
  i < dataset_len (dataset ld) →
  dataset_len (dataset ld) < i + batch_size ld →
  ∃ bt, __next__ ld =
          (set_index (dataset_len (dataset ld))
             (set_batch_size (dataset_len (dataset ld) - i) ld), Ok bt) ∧
        getitem (dataset ld) (drop i p) = Ok bt ∧
        batch_len bt = dataset_len (dataset ld) - i.
Proof.
  intros Hi Hp Hr Hd Hlt Hn. unfold __next__. rewrite Hi, Hd.
  rewrite bool_decide_eq_false_2 by lia.
  rewrite (bool_decide_eq_true_2 (_ < _)) by lia. simpl. rewrite Hp.
  set (n := dataset_len (dataset ld)).
  assert (length p = n) as Hlen by apply Hr.
  rewrite (take_ge (drop i p)) by (rewrite length_drop; lia).
  destruct (getitem_ok (dataset ld) (drop i p)) as (bt & Hbt & Hbl).
  { apply Hr. } { apply Forall_drop, Hr. }
  exists bt. rewrite Hbt. split.
  - f_equal. unfold set_index, set_batch_size; simpl. f_equal.
    f_equal. subst n. lia.
  - split; [done|]. rewrite Hbl, length_drop. lia.
Qed.

(** A traversal that keeps the remainder, from the cursor [i]: the batches
    are the samples at consecutive windows that together are the rest of the
    permutation. *)
Lemma drain_keep_all k : ∀ ld i p extra,
  index ld = Some i → perm ld = Some p → in_range (dataset ld) p →
  drop_last ld = false → 0 < batch_size ld →
  i ≤ dataset_len (dataset ld) →
  (dataset_len (dataset ld) - i) `div` batch_size ld = k →
  ∃ ld' bs ws,
    drain (S (S k) + extra) ld = Some (ld', Ok bs) ∧
    Forall2 (λ idx bt, getitem (dataset ld) idx = Ok bt ∧
                       batch_len bt = length idx) ws bs ∧
    concat ws = drop i p ∧
    Forall (λ w, 0 < length w ≤ batch_size ld) ws ∧
    length <$> ws =
      replicate k (batch_size ld) ++
      (if decide ((dataset_len (dataset ld) - i) `mod` batch_size ld = 0)
       then []
       else [(dataset_len (dataset ld) - i) `mod` batch_size ld]) ∧
    __next__ ld' = (ld', Raise StopIteration) ∧
    batch_size ld' =
      (if decide ((dataset_len (dataset ld) - i) `mod` batch_size ld = 0)
       then batch_size ld
       else (dataset_len (dataset ld) - i) `mod` batch_size ld) ∧
    dataset ld' = dataset ld ∧ drop_last ld' = false ∧
    shuffle ld' = shuffle ld ∧ reference ld' = reference ld.
Proof.
  induction k as [|k IH]; intros ld i p extra Hi Hp Hr Hd Hb Hle Hk.
  - apply div_zero_inv in Hk; [|done].
    assert (length p = dataset_len (dataset ld)) as Hlen by apply Hr.
    rewrite Nat.mod_small by done.
    destruct (decide (dataset_len (dataset ld) - i = 0)) as [Hz|Hnz].
    + assert (__next__ ld = (ld, Raise StopIteration)) as Hstop
        by (eapply next_end; [done|lia]).
      exists ld, [], []. change (2 + extra) with (S (S extra)).
      rewrite (drain_stop _ _ _ Hstop).
      split; [done|]. split; [constructor|].
      split; [by rewrite drop_ge by lia|]. split; [constructor|].
      done.
    + destruct (next_short_keep_window ld i p) as (bt & Hnext & Hbt & Hbl);
        [done..|lia|lia|].
      assert (__next__ (set_index (dataset_len (dataset ld))
                 (set_batch_size (dataset_len (dataset ld) - i) ld))
              = (set_index (dataset_len (dataset ld))
                   (set_batch_size (dataset_len (dataset ld) - i) ld),
                 Raise StopIteration)) as Hstop
        by by apply next_end with (i := dataset_len (dataset ld)).
      eexists _, [bt], [drop i p]. change (2 + extra) with (S (S extra)).
      rewrite (drain_yield _ _ _ _ Hnext), (drain_stop _ _ _ Hstop).
      split; [done|]. split.
      { constructor; [|constructor]. split; [done|].
        rewrite Hbl, length_drop. lia. }
      split; [simpl; by rewrite app_nil_r|]. split.
      { constructor; [|constructor]. rewrite length_drop. lia. }
      simpl. rewrite length_drop, Hlen. done.
  - apply div_succ_inv in Hk as (Hbn & Hk & Hmod); [|done].
    destruct (next_full ld i p) as (bt & Hnext & Hbt & Hbl);
      [done..|lia|].
    destruct (IH (set_index (i + batch_size ld) ld) (i + batch_size ld) p
                extra)
      as (ld' & bs & ws & Hdr & Hall & Hcat & Hws & Hsz & Hstop & Hbs
          & Hrest);
      [done..|simpl; lia| |].
    { simpl. rewrite <- Hk. f_equal. lia. }
    assert (length p = dataset_len (dataset ld)) as Hlen by apply Hr.
    exists ld', (bt :: bs), (take (batch_size ld) (drop i p) :: ws).
    change (S (S (S k)) + extra) with (S (S (S k) + extra)).
    rewrite (drain_yield _ _ _ _ Hnext), Hdr.
    simpl in Hall, Hws, Hsz, Hbs, Hrest.
    assert (dataset_len (dataset ld) - (i + batch_size ld)
            = dataset_len (dataset ld) - i - batch_size ld) as Heq by lia.
    rewrite Heq, Hmod in Hbs, Hsz.
    split; [done|]. split.
    { constructor; [|done]. split; [done|].
      rewrite Hbl, length_take, length_drop. lia. }
    split.
    { simpl. rewrite Hcat, <- drop_drop. apply take_drop. }
    split.
    { constructor; [|done]. rewrite length_take, length_drop. lia. }
    split; [|done].
    rewrite fmap_cons, Hsz, length_take, length_drop. simpl. f_equal. lia.
Qed.

(** X3.  One traversal of a loader with drop_last=False and a positive batch
    size returns every sample exactly once: the batches are the samples at
    windows of the permutation drawn by [__iter__], no window is empty or
    longer than the batch size, and the windows in order make up the whole
    permutation. *)
Theorem traverse_keep_last_covers_dataset ld (draw : list nat)
    (extra : nat) :
  drop_last ld = false → 0 < batch_size ld →
  length (targets (dataset ld)) = dataset_len (dataset ld) →
  draw ≡ₚ seq 0 (dataset_len (dataset ld)) →
  ∃ ld' bs ws,
    traverse (dataset_len (dataset ld) `div` batch_size ld + 2 + extra)
             draw ld = Some (ld', Ok bs) ∧
    Forall2 (λ idx bt, getitem (dataset ld) idx = Ok bt ∧
                       batch_len bt = length idx) ws bs ∧
    Forall (λ w, 0 < length w ≤ batch_size ld) ws ∧
    perm (__iter__ draw ld) = Some (concat ws) ∧
    concat ws ≡ₚ seq 0 (dataset_len (dataset ld)) ∧
    __next__ ld' = (ld', Raise StopIteration).
Proof.
  intros Hd Hb Ht Hdraw.
  destruct (iter_in_range draw ld Ht Hdraw) as (p & Hp & Hperm & Hr).
  destruct (drain_keep_all (dataset_len (dataset ld) `div` batch_size ld)
              (__iter__ draw ld) 0 p extra)
    as (ld' & bs & ws & Hdr & Hall & Hcat & Hws & _ & Hstop & _);
    [done..|simpl; lia| |].
  { simpl. by rewrite Nat.sub_0_r. }
  exists ld', bs, ws. unfold traverse.
  replace (dataset_len (dataset ld) `div` batch_size ld + 2 + extra)
    with (S (S (dataset_len (dataset ld) `div` batch_size ld)) + extra)
    by lia.
  rewrite drop_0 in Hcat. rewrite Hcat. done.
Qed.

(** One traversal with drop_last=False on a dataset whose size is a multiple
    of the batch size: full batches only, and the loader keeps its batch
    size, its dataset and its flags. *)
Lemma traverse_keep_last_exact ld (draw : list nat) (extra : nat) :
  drop_last ld = false → 0 < batch_size ld →
  dataset_len (dataset ld) `mod` batch_size ld = 0 →
  length (targets (dataset ld)) = dataset_len (dataset ld) →
  draw ≡ₚ seq 0 (dataset_len (dataset ld)) →
  ∃ ld' bs,
    traverse (dataset_len (dataset ld) `div` batch_size ld + 2 + extra)
             draw ld = Some (ld', Ok bs) ∧
    batch_len <$> bs
      = replicate (dataset_len (dataset ld) `div` batch_size ld)
                  (batch_size ld) ∧
    batch_size ld' = batch_size ld ∧ dataset ld' = dataset ld ∧
    drop_last ld' = false.
Proof.
  intros Hd Hb Hm Ht Hdraw.
  destruct (iter_in_range draw ld Ht Hdraw) as (p & Hp & Hperm & Hr).
  destruct (drain_keep_all (dataset_len (dataset ld) `div` batch_size ld)
              (__iter__ draw ld) 0 p extra)
    as (ld' & bs & ws & Hdr & Hall & _ & _ & Hsz & _ & Hbs & Hds & Hdl & _);
    [done..|simpl; lia| |].
  { simpl. by rewrite Nat.sub_0_r. }
  change (dataset (__iter__ draw ld)) with (dataset ld) in *.
  change (batch_size (__iter__ draw ld)) with (batch_size ld) in *.
  rewrite Nat.sub_0_r in Hsz, Hbs.
  rewrite decide_True in Hsz by done. rewrite decide_True in Hbs by done.
  rewrite app_nil_r in Hsz.
  exists ld', bs. unfold traverse.
  replace (dataset_len (dataset ld) `div` batch_size ld + 2 + extra)
    with (S (S (dataset_len (dataset ld) `div` batch_size ld)) + extra)
    by lia.
  split; [done|]. split; [|done]. rewrite <- Hsz.
  clear -Hall. induction Hall as [|w bt ws bs [_ Hw] _ IH]; [done|].
  by rewrite !fmap_cons, Hw, IH.
Qed.

(** X4.  With drop_last=False and a dataset size that is a multiple of the
    batch size, a traversal returns full batches only and leaves the batch
    size as it was, so the next traversal returns batches of the same sizes
    again. *)
Theorem traverse_keep_last_exact_restarts ld (draw draw' : list nat)
    (extra : nat) :
  drop_last ld = false → 0 < batch_size ld →
  dataset_len (dataset ld) `mod` batch_size ld = 0 →
  length (targets (dataset ld)) = dataset_len (dataset ld) →
  draw ≡ₚ seq 0 (dataset_len (dataset ld)) →
  draw' ≡ₚ seq 0 (dataset_len (dataset ld)) →
  ∃ ld1 bs1 ld2 bs2,
    traverse (dataset_len (dataset ld) `div` batch_size ld + 2 + extra)
             draw ld = Some (ld1, Ok bs1) ∧
    batch_len <$> bs1
      = replicate (dataset_len (dataset ld) `div` batch_size ld)
                  (batch_size ld) ∧
    batch_size ld1 = batch_size ld ∧
    traverse (dataset_len (dataset ld) `div` batch_size ld + 2 + extra)
             draw' ld1 = Some (ld2, Ok bs2) ∧
    batch_len <$> bs2 = batch_len <$> bs1.
Proof.
  intros Hd Hb Hm Ht Hdraw Hdraw'.
  destruct (traverse_keep_last_exact ld draw extra)
    as (ld1 & bs1 & Htr1 & Hsz1 & Hbs1 & Hds1 & Hdl1); [done..|].
  destruct (traverse_keep_last_exact ld1 draw' extra)
    as (ld2 & bs2 & Htr2 & Hsz2 & _);
    [done|by rewrite Hbs1|by rewrite Hbs1, Hds1|by rewrite Hds1
    |by rewrite Hds1|].
  rewrite Hbs1, Hds1 in Htr2, Hsz2.
  exists ld1, bs1, ld2, bs2. by rewrite Hsz1, Hsz2.
Qed.

(** X5.  A loader with batch size 0 on a dataset that is not empty: every
    call of [__next__] returns an empty batch and leaves the cursor where it
    is, so a traversal never ends (it is still running after any number of
    calls), while [__len__] raises ZeroDivisionError. *)
Theorem zero_batch_size_never_ends ld (draw : list nat) :
  batch_size ld = 0 → 0 < dataset_len (dataset ld) →
  (∀ fuel, traverse fuel draw ld = None) ∧
  (∃ it, it = __iter__ draw ld ∧
         __next__ it = (it, Ok (Tensor (item_shape (data (dataset ld))) [],
                                [])) ) ∧
  __len__ ld = Raise ZeroDivisionError.
Proof.
  intros Hb Hn.
  assert (__next__ (__iter__ draw ld)
          = (__iter__ draw ld,
             Ok (Tensor (item_shape (data (dataset ld))) [], []))) as Hnext.
  { unfold __next__. simpl. rewrite Hb.
    rewrite bool_decide_eq_false_2 by lia.
    rewrite (bool_decide_eq_false_2 (_ < _)) by lia. simpl.
    unfold __iter__, set_index. simpl. by rewrite Hb. }
  split; [|split; [by eexists|]].
  - unfold traverse. intros fuel.
    induction fuel as [|fuel IH]; [done|].
    by rewrite (drain_yield _ _ _ _ Hnext), IH.
  - unfold __len__. by rewrite Hb.
Qed.

End KeepLastFacts.

Lemma traverse_keep_last_covers_dataset_witness :
  ∃ ld' bs ws,
    traverse 5 [9; 8; 7; 6; 5; 4; 3; 2; 1; 0]
             (GPUDataLoader_init (synthetic 10) 3 true false)
      = Some (ld', Ok bs) ∧
    Forall2 (λ idx bt, getitem (synthetic 10) idx = Ok bt ∧
                       batch_len bt = length idx) ws bs ∧
    Forall (λ w, 0 < length w ≤ 3) ws ∧
    perm (__iter__ [9; 8; 7; 6; 5; 4; 3; 2; 1; 0]
                   (GPUDataLoader_init (synthetic 10) 3 true false))
      = Some (concat ws) ∧
    concat ws ≡ₚ seq 0 10 ∧
    __next__ ld' = (ld', Raise StopIteration).
Proof.
  apply (traverse_keep_last_covers_dataset
           (GPUDataLoader_init (synthetic 10) 3 true false)
           [9; 8; 7; 6; 5; 4; 3; 2; 1; 0] 0);
    [reflexivity|simpl; lia|reflexivity|].
  exact (reverse_Permutation (seq 0 10)).
Defined.

Lemma traverse_keep_last_exact_restarts_witness :
  ∃ ld1 bs1 ld2 bs2,
    traverse 5 [8; 7; 6; 5; 4; 3; 2; 1; 0]
             (GPUDataLoader_init (synthetic 9) 3 true false)
      = Some (ld1, Ok bs1) ∧
    batch_len <$> bs1 = [3; 3; 3] ∧
    batch_size ld1 = 3 ∧
    traverse 5 (seq 0 9) ld1 = Some (ld2, Ok bs2) ∧
    batch_len <$> bs2 = batch_len <$> bs1.
Proof.
  apply (traverse_keep_last_exact_restarts
           (GPUDataLoader_init (synthetic 9) 3 true false)
           [8; 7; 6; 5; 4; 3; 2; 1; 0] (seq 0 9) 0);
    [reflexivity|simpl; lia|reflexivity|reflexivity| |reflexivity].
  exact (reverse_Permutation (seq 0 9)).
Defined.

Lemma zero_batch_size_never_ends_witness :
  (∀ fuel,
     traverse fuel [1; 0] (GPUDataLoader_init (synthetic 2) 0 true false)
       = None) ∧
  __len__ (GPUDataLoader_init (synthetic 2) 0 true false)
    = Raise ZeroDivisionError.
Proof.
  destruct (zero_batch_size_never_ends
              (GPUDataLoader_init (synthetic 2) 0 true false) [1; 0])
    as (Hloop & _ & Hlen); [reflexivity|cbv; lia|].
  split; [exact Hloop|exact Hlen].
Defined.

(** ** Pixel permutations *)

Section PermutationFacts.
Context {A : Type}.
Implicit Types (ld : GPUDataLoader A) (t : tensor A) (p q : list nat).

Lemma mapM_result_Ok {X Y} (f : X → result Y) (l : list X) (k : list Y) :
  mapM f l = Ok k ↔ Forall2 (λ x y, f x = Ok y) l k.
Proof.
  revert k. induction l as [|x l IH]; intros k; simpl.
  - split; [intros [= <-]; constructor|]. by intros ->%Forall2_nil_inv_l.
  - destruct (f x) as [y|e] eqn:Hy; simpl.
    + destruct (mapM f l) as [k0|e] eqn:Hk0; simpl.
      * split.
        -- intros [= <-]. constructor; [done|]. by apply IH.
        -- intros (y' & k' & Hy' & Hk' & ->)%Forall2_cons_inv_l.
           apply IH in Hk'. rewrite Hy in Hy'. by simplify_eq.
      * split; [done|].
        intros (y' & k' & _ & Hk' & ->)%Forall2_cons_inv_l.
        by apply IH in Hk'.
    + split; [done|].
      intros (y' & k' & Hy' & _ & ->)%Forall2_cons_inv_l.
      rewrite Hy in Hy'. done.
Qed.

Lemma gather_seq_inv {X} (l k : list X) :
  Forall2 (λ j x, l !! j = Some x) (seq 0 (length l)) k → k = l.
Proof.
  intros H. apply gather_Ok in H. rewrite gather_all in H. congruence.
Qed.

(** Gathering along a permutation of the positions reorders the list. *)
Lemma gather_permutation {X} (l k : list X) p :
  p ≡ₚ seq 0 (length l) → gather l p = Ok k → k ≡ₚ l.
Proof.
  intros Hp Hk. apply gather_Ok in Hk.
  destruct (Permutation_Forall2 Hp Hk) as (k' & Hkk' & Hk').
  apply gather_seq_inv in Hk'. by subst.
Qed.

(** [permute_pixels] on a valid permutation. *)
Lemma permute_pixels_valid t p :
  tensor_wf t → rows t ≠ [] →
  Forall (λ j, j < numel_item t) p → length p = numel_item t →
  ∃ rows',
    permute_pixels t p = Ok (Tensor (item_shape t) rows') ∧
    Forall2 (λ r r', Forall2 (λ j x, r !! j = Some x) p r') (rows t) rows'.
Proof.
  intros Hwf Hne Hp Hlen. unfold permute_pixels.
  destruct (rows t) as [|r0 rs] eqn:Hrows; [done|]. rewrite <- Hrows.
  assert (∃ rows', Forall2 (λ r r', gather r p = Ok r') (rows t) rows')
    as [rows' Hall].
  { unfold tensor_wf in Hwf. clear Hrows Hne.
    induction Hwf as [|r rs' Hr _ IH]; [by exists []|].
    destruct IH as [rows' Hrows'].
    destruct (gather_ok r p) as (r' & Hr' & _); [by rewrite Hr|].
    exists (r' :: rows'). by constructor. }
  exists rows'. apply mapM_result_Ok in Hall as Hm. rewrite Hm. simpl.
  rewrite bool_decide_eq_true_2 by done. split; [done|].
  eapply Forall2_impl; [exact Hall|]. intros r r' Hg. by apply gather_Ok.
Qed.

(** X6.  [permute_pixels] on a tensor whose samples have [F] scalars each
    sorts its argument into four cases: on a tensor without samples it
    raises a RuntimeError; if an index is [F] or more it raises an
    IndexError; if all indices are below [F] but there are not [F] of them it
    raises a RuntimeError; and otherwise it returns a tensor of the same
    shape in which scalar [k] of every sample is scalar [p[k]] of the former
    sample. *)
Theorem permute_pixels_cases t p :
  tensor_wf t →
  (rows t = [] → ∃ msg, permute_pixels t p = Raise (RuntimeError msg)) ∧
  (rows t ≠ [] → Exists (λ j, numel_item t ≤ j) p →
   permute_pixels t p = Raise IndexError) ∧
  (rows t ≠ [] → Forall (λ j, j < numel_item t) p →
   length p ≠ numel_item t →
   ∃ msg, permute_pixels t p = Raise (RuntimeError msg)) ∧
  (rows t ≠ [] → Forall (λ j, j < numel_item t) p →
   length p = numel_item t →
   ∃ t', permute_pixels t p = Ok t' ∧
         item_shape t' = item_shape t ∧
         length (rows t') = length (rows t) ∧ tensor_wf t' ∧
         ∀ i r', rows t' !! i = Some r' →
           ∃ r, rows t !! i = Some r ∧
                ∀ k j, p !! k = Some j → r' !! k = r !! j).
Proof.
  intros Hwf. split; [|split; [|split]].
  - intros Hrows. unfold permute_pixels. rewrite Hrows. eauto.
  - intros Hne Hex. unfold permute_pixels.
    destruct (rows t) as [|r0 rs] eqn:Hrows; [done|].
    unfold tensor_wf in Hwf. rewrite Hrows in Hwf.
    apply Forall_cons in Hwf as [Hr0 _]. simpl.
    assert (gather r0 p = Raise IndexError) as ->; [|done].
    apply gather_Raise. split; [done|]. by rewrite Hr0.
  - intros Hne Hp Hlen. unfold permute_pixels.
    destruct (rows t) as [|r0 rs] eqn:Hrows; [done|]. rewrite <- Hrows.
    destruct (mapM (λ r, gather r p) (rows t)) as [cols|e] eqn:Hm.
    + simpl. rewrite bool_decide_eq_false_2 by done. eauto.
    + exfalso.
      assert (∃ rows', Forall2 (λ r r', gather r p = Ok r') (rows t) rows')
        as [rows' Hall].
      { unfold tensor_wf in Hwf. clear Hrows Hne Hm.
        induction Hwf as [|r rs' Hr _ IH]; [by exists []|].
        destruct IH as [rows' Hrows'].
        destruct (gather_ok r p) as (r' & Hr' & _); [by rewrite Hr|].
        exists (r' :: rows'). by constructor. }
      apply mapM_result_Ok in Hall. congruence.
  - intros Hne Hp Hlen.
    destruct (permute_pixels_valid t p) as (rows' & Hpx & Hall); [done..|].
    exists (Tensor (item_shape t) rows'). split; [done|]. split; [done|].
    split; [symmetry; by eapply Forall2_length|]. split.
    + unfold tensor_wf, numel_item. simpl.
      apply Forall_forall. intros r' Hr'.
      apply list_elem_of_lookup in Hr' as [i Hi].
      destruct (Forall2_lookup_r _ _ _ _ _ Hall Hi) as (r & _ & Hrr').
      apply Forall2_length in Hrr'. by rewrite <- Hrr'.
    + intros i r' Hi. simpl in Hi.
      destruct (Forall2_lookup_r _ _ _ _ _ Hall Hi) as (r & Hr & Hrr').
      exists r. split; [done|]. intros k j Hk.
      destruct (Forall2_lookup_l _ _ _ _ _ Hrr' Hk) as (x & Hx & Hjx).
      by rewrite Hx, Hjx.
Qed.

(** X7.  A permutation of the pixel positions only reorders the scalars of
    each sample: after [permute_pixels] every sample holds the scalars it
    held before, each as often as before. *)
Theorem permute_pixels_reorders_each_sample t t' p :
  tensor_wf t → p ≡ₚ seq 0 (numel_item t) →
  permute_pixels t p = Ok t' →
  item_shape t' = item_shape t ∧ Forall2 (≡ₚ) (rows t') (rows t).
Proof.
  intros Hwf Hp Hpx.
  assert (Forall (λ j, j < numel_item t) p) as Hrange.
  { rewrite Hp. apply Forall_seq. intros; lia. }
  assert (length p = numel_item t) as Hlen by by rewrite Hp, length_seq.
  destruct (decide (rows t = [])) as [Hnil|Hne].
  { unfold permute_pixels in Hpx. by rewrite Hnil in Hpx. }
  destruct (permute_pixels_valid t p) as (rows' & Hpx' & Hall); [done..|].
  rewrite Hpx' in Hpx. injection Hpx as <-. split; [done|]. simpl.
  apply Forall2_flip. unfold tensor_wf in Hwf.
  clear Hpx' Hne. induction Hall as [|r r' rs rs' Hrr' _ IH]; [constructor|].
  apply Forall_cons in Hwf as [Hr Hwf].
  constructor; [|by apply IH]. simpl.
  apply (gather_permutation r r' p); [by rewrite Hr|by apply gather_Ok].
Qed.

(** X8.  Permuting the pixels and then permuting them with the inverse
    permutation gives the tensor back. *)
Theorem permute_pixels_inverse t t1 p q :
  tensor_wf t → permute_pixels t p = Ok t1 →
  length q = numel_item t →
  (∀ i j, q !! i = Some j → p !! j = Some i) →
  permute_pixels t1 q = Ok t.
Proof.
  intros Hwf Hpx Hlen Hinv.
  destruct (decide (rows t = [])) as [Hnil|Hne].
  { unfold permute_pixels in Hpx. by rewrite Hnil in Hpx. }
  unfold permute_pixels in Hpx.
  destruct (rows t) as [|r0 rs] eqn:Hrows; [done|]. rewrite <- Hrows in *.
  destruct (mapM _ (rows t)) as [rows1|] eqn:Hm; [|done]. simpl in Hpx.
  case_bool_decide as Hp; [|done]. injection Hpx as <-.
  apply mapM_result_Ok in Hm.
  unfold permute_pixels. simpl.
  assert (rows1 ≠ []) as Hne1.
  { intros ->. apply Forall2_nil_inv_r in Hm. done. }
  destruct rows1 as [|r1 rs1] eqn:Hrows1; [done|]. rewrite <- Hrows1 in *.
  assert (mapM (λ r, gather r q) rows1 = Ok (rows t)) as ->.
  { apply mapM_result_Ok. apply Forall2_flip.
    unfold tensor_wf in Hwf. clear Hrows Hrows1 Hne Hne1.
    induction Hm as [|r r' rs' rs1' Hg _ IH]; [constructor|].
    apply Forall_cons in Hwf as [Hr Hwf].
    constructor; [|by apply IH]. simpl.
    apply gather_Ok in Hg. apply gather_Ok.
    apply Forall2_same_length_lookup_2; [lia|].
    intros i j x Hq Hx. apply Hinv in Hq.
    destruct (Forall2_lookup_l _ _ _ _ _ Hg Hq) as (y & Hy & Hiy).
    congruence. }
  simpl. unfold numel_item. simpl. fold (numel_item t).
  rewrite bool_decide_eq_true_2 by done. by destruct t.
Qed.

End PermutationFacts.

Lemma permute_pixels_cases_witness :
  tensor_wf (data images2x2) ∧
  permute_pixels (data images2x2) [0; 1; 2; 4] = Raise IndexError ∧
  (∃ msg, permute_pixels (data images2x2) [0; 1] = Raise (RuntimeError msg)) ∧
  (∃ t', permute_pixels (data images2x2) [3; 2; 1; 0] = Ok t' ∧
         item_shape t' = [2; 2] ∧ length (rows t') = 2 ∧ tensor_wf t').
Proof.
  assert (tensor_wf (data images2x2)) as Hwf by repeat constructor.
  destruct (permute_pixels_cases (data images2x2) [0; 1; 2; 4] Hwf)
    as (_ & Hidx & _).
  destruct (permute_pixels_cases (data images2x2) [0; 1] Hwf)
    as (_ & _ & Hshort & _).
  destruct (permute_pixels_cases (data images2x2) [3; 2; 1; 0] Hwf)
    as (_ & _ & _ & Hok).
  split; [exact Hwf|]. split; [|split].
  - apply Hidx; [done|]. do 3 apply Exists_cons_tl. apply Exists_cons_hd.
    apply Nat.le_refl.
  - apply Hshort; [done| |done]. repeat constructor.
  - destruct Hok as (t' & Ht' & Hs & Hl & Hwf' & _);
      [done| |done|]; [repeat constructor|].
    exists t'. done.
Defined.

Lemma permute_pixels_reorders_each_sample_witness :
  [3; 2; 1; 0] ≡ₚ seq 0 4 ∧
  permute_pixels (data images2x2) [3; 2; 1; 0]
    = Ok (Tensor [2; 2] [[4; 3; 2; 1]; [8; 7; 6; 5]]%Z) ∧
  Forall2 (≡ₚ) [[4; 3; 2; 1]; [8; 7; 6; 5]]%Z (rows (data images2x2)).
Proof.
  assert ([3; 2; 1; 0] ≡ₚ seq 0 4) as Hp
    by exact (reverse_Permutation (seq 0 4)).
  split; [exact Hp|]. split; [reflexivity|].
  apply (permute_pixels_reorders_each_sample (data images2x2)
           (Tensor [2; 2] [[4; 3; 2; 1]; [8; 7; 6; 5]]%Z) [3; 2; 1; 0]);
    [repeat constructor|exact Hp|reflexivity].
Defined.

Lemma permute_pixels_inverse_witness :
  permute_pixels (data images2x2) [1; 2; 3; 0]
    = Ok (Tensor [2; 2] [[2; 3; 4; 1]; [6; 7; 8; 5]]%Z) ∧
  permute_pixels (Tensor [2; 2] [[2; 3; 4; 1]; [6; 7; 8; 5]]%Z) [3; 0; 1; 2]
    = Ok (data images2x2).
Proof.
  split; [reflexivity|].
  apply (permute_pixels_inverse (data images2x2) _ [1; 2; 3; 0]);
    [repeat constructor|reflexivity|reflexivity|].
  intros [|[|[|[|i]]]] j Hq; simpl in Hq; by simplify_eq.
Defined.

Section GeneratorFacts.
Context {A : Type}.
Implicit Types (ld : GPUDataLoader A) (t : tensor A) (p q : list nat).

Lemma permute_dataset_body_pristine p ld :
  pristine (permute_dataset_body p ld).1 = pristine ld.
Proof.
  unfold permute_dataset_body.
  destruct (restore_reference_spec ld) as (Hd & Hr & _).
  destruct (permute_pixels _ p) as [t1|e]; unfold pristine at 1.
  - change (reference (set_data t1 (restore_reference ld), Ok ()).1)
      with (reference (restore_reference ld)). by rewrite Hr.
  - change (reference (restore_reference ld, @Raise () e).1)
      with (reference (restore_reference ld)). by rewrite Hr.
Qed.

Lemma class_incremental_body_pristine i ld :
  pristine (class_incremental_body i ld).1 = pristine ld.
Proof.
  unfold class_incremental_body.
  destruct (restore_reference_spec ld) as (_ & Hr & _).
  unfold pristine at 1.
  change (reference (restore_reference ld, Ok ()).1)
    with (reference (restore_reference ld)). by rewrite Hr.
Qed.

(** X9.  On a dataset that is not empty, a run of [permute_dataset] over
    permutations that all are lists of [F] indices below [F] ([F] the number
    of scalars of a sample) yields once per permutation and ends without an
    exception, whatever the caller does to the loader between the yields
    short of rebinding [reference]; the labels of the loader are the same at
    every yield. *)
Theorem permute_dataset_yields_once_per_permutation
    (use : GPUDataLoader A → GPUDataLoader A) (perms : list (list nat)) ld :
  (∀ l, reference (use l) = reference l) →
  (∀ l, targets (dataset (use l)) = targets (dataset l)) →
  tensor_wf (pristine ld) → rows (pristine ld) ≠ [] →
  Forall (λ p, length p = numel_item (pristine ld) ∧
               Forall (λ j, j < numel_item (pristine ld)) p) perms →
  ∃ ys ld',
    permute_dataset use perms ld = (ys, (ld', Ok ())) ∧
    length ys = length perms ∧
    Forall (λ y, targets (dataset y) = targets (dataset ld)) ys.
Proof.
  intros Huse Htg Hwf Hne Hall. unfold permute_dataset.
  revert ld Hwf Hne Hall.
  induction perms as [|p perms IH]; intros ld Hwf Hne Hall.
  - exists [], ld. done.
  - apply Forall_cons in Hall as [[Hlen Hrange] Hall]. simpl.
    destruct (permute_pixels_valid (pristine ld) p) as (rows' & Hpx & _);
      [done..|].
    pose proof (permute_dataset_body_pristine p ld) as Hpr.
    destruct (permute_dataset_body p ld) as [ld1 r] eqn:Hbody.
    assert (r = Ok () ∧ targets (dataset ld1) = targets (dataset ld))
      as [-> Ht1].
    { unfold permute_dataset_body in Hbody.
      destruct (restore_reference_spec ld) as (Hd & _ & Ht).
      rewrite Hd, Hpx in Hbody. injection Hbody as <- <-. done. }
    simpl in Hpr.
    assert (pristine (use ld1) = pristine ld) as Hpr'.
    { unfold pristine at 1. rewrite Huse.
      destruct (permute_dataset_body_spec p ld ld1 Hbody) as (_ & Href & _).
      by rewrite Href. }
    destruct (IH (use ld1)) as (ys & ld' & Hrun & Hlen' & Hts);
      [by rewrite Hpr'..|].
    rewrite Hrun. exists (ld1 :: ys), ld'. split; [done|].
    split; [simpl; by rewrite Hlen'|].
    constructor; [done|].
    eapply Forall_impl; [exact Hts|]. intros y Hy. simpl in Hy.
    by rewrite Hy, Htg, Ht1.
Qed.

(** X10.  The two transforms share one reference, and once it is set no
    transform step changes it: a step of either generator, also one that
    raises, leaves the untransformed features where they are, so a step of
    [class_incremental_dataset] after a step of [permute_dataset] gives the
    loader its untransformed features back. *)
Theorem transforms_share_the_reference (p : list nat) (i : nat) ld :
  pristine (permute_dataset_body p ld).1 = pristine ld ∧
  pristine (class_incremental_body i ld).1 = pristine ld ∧
  reference (permute_dataset_body p ld).1 = Some (pristine ld) ∧
  data (dataset (class_incremental_body i (permute_dataset_body p ld).1).1)
    = pristine ld.
Proof.
  split; [apply permute_dataset_body_pristine|].
  split; [apply class_incremental_body_pristine|]. split.
  - unfold permute_dataset_body.
    destruct (restore_reference_spec ld) as (_ & Hr & _).
    by destruct (permute_pixels _ p).
  - destruct (class_incremental_body_spec i (permute_dataset_body p ld).1)
      as (ld' & Hbody & Hd & _).
    rewrite Hbody. simpl. rewrite Hd. apply permute_dataset_body_pristine.
Qed.

End GeneratorFacts.

Lemma permute_dataset_yields_once_per_permutation_witness :
  ∃ ys ld',
    permute_dataset (λ l, l) [[3; 2; 1; 0]; [1; 0; 3; 2]; [0; 1; 2; 3]]
                    (GPUDataLoader_init images2x2 1 false true)
      = (ys, (ld', Ok ())) ∧
    length ys = 3 ∧
    Forall (λ y, targets (dataset y) = [0; 1]%Z) ys.
Proof.
  apply (permute_dataset_yields_once_per_permutation (λ l, l)
           [[3; 2; 1; 0]; [1; 0; 3; 2]; [0; 1; 2; 3]]
           (GPUDataLoader_init images2x2 1 false true));
    [reflexivity|reflexivity|repeat constructor|done|].
  repeat constructor.
Defined.

(** ** Building the loaders *)

Section LoadingFacts.
Context {A Y T : Type}.
Context (to_long : Y → Z) (to_float : A → A).
Context (DataLoader : GPUTensorDataset A → nat → bool → bool → result T).

(** X11.  [batching] outside the [as_dataset] mode, on a test set with as
    many labels as samples.  The train loader shuffles and drops the
    remainder.  One traversal of the test loader returns the whole test set
    as a single batch, in the order of the permutation drawn, and on an empty
    test set it returns no batch. *)
Theorem batching_test_loader_single_batch (self : GPULoading)
    (train_x test_x : tensor A) (train_y test_y : list Y) (bs : nat) :
  as_dataset self = false →
  length (rows test_x) = length test_y →
  ∃ train test,
    batching to_long to_float DataLoader self train_x train_y test_x test_y bs
      = Ok (Gpu train, Gpu test) ∧
    batch_size train = bs ∧ shuffle train = true ∧ drop_last train = true ∧
    dataset train = Dataset train_x (to_long <$> train_y) ∧
    ∀ (draw : list nat) (extra : nat),
      draw ≡ₚ seq 0 (length test_y) →
      ∃ ld' batches,
        traverse (2 + extra) draw test = Some (ld', Ok batches) ∧
        (test_y = [] → batches = []) ∧
        (test_y ≠ [] →
         ∃ bt, batches = [bt] ∧ getitem (dataset test) draw = Ok bt ∧
               batch_len bt = length test_y).
Proof.
  intros Has Hlen. unfold batching. rewrite Has. simpl.
  eexists _, _. split; [reflexivity|]. repeat (split; [reflexivity|]).
  intros draw extra Hdraw.
  set (d := Dataset (Tensor (item_shape test_x)
                            ((λ r : list A, to_float <$> r) <$> rows test_x))
                    (to_long <$> test_y)).
  assert (dataset_len d = length test_y) as Hn
    by (unfold dataset_len; simpl; by rewrite length_fmap).
  rewrite Hn.
  set (ld := GPUDataLoader_init d (length test_y) true true).
  destruct (decide (test_y = [])) as [->|Hne].
  - assert (__next__ (__iter__ draw ld) = (__iter__ draw ld, Raise StopIteration))
      as Hstop.
    { apply next_end with (i := 0); [done|]. simpl. rewrite Hn. done. }
    exists (__iter__ draw ld), []. unfold traverse.
    change (2 + extra) with (S (S extra)).
    rewrite (drain_stop _ _ _ Hstop). done.
  - assert (0 < length test_y) as Hpos by (destruct test_y; [done|simpl; lia]).
    destruct (iter_in_range draw ld) as (p & Hp & Hperm & Hr);
      [simpl; by rewrite length_fmap|simpl; by rewrite Hn|].
    simpl in Hp. injection Hp as <-.
    destruct (drain_drop_last 1 (__iter__ draw ld) 0 draw extra)
      as (ld' & batches & Hdr & Hall & _); [done..|simpl; lia| |].
    { simpl. rewrite Hn, Nat.sub_0_r. by apply Nat.div_same, Nat.neq_0_lt_0. }
    exists ld', batches. split; [exact Hdr|]. split; [done|]. intros _.
    simpl in Hall.
    apply Forall2_cons_inv_l in Hall as (bt & rest & [Hbt Hbl] & Hall & ->).
    apply Forall2_nil_inv_l in Hall as ->.
    exists bt. split; [done|].
    assert (length draw = length test_y) as Hld
      by by rewrite Hdraw, length_seq.
    rewrite drop_0, take_ge in Hbt by (simpl; lia). done.
Qed.

Context (mnist fashion_mnist cifar10 cifar100
           : nat → result (GPUDataLoader A * GPUDataLoader A)).

(** X12.  [task_selection].  A task name that is none of the seven known
    names raises a ValueError whatever the loading functions would do.  For
    "Sequential", when both data sets load, the loaders come in the order
    MNIST, Fashion-MNIST, and the sample shape and the number of classes are
    those of the MNIST training set alone: the number of classes is the
    number of distinct labels in it.  An empty training set raises an
    IndexError. *)
Theorem task_selection_cases (task : string) (bs : nat) :
  (task ∉ ["Sequential"; "MNIST"; "PermutedMNIST"; "CIFAR10";
           "CIFAR10INCREMENTAL"; "CIFAR100"; "CIFAR100INCREMENTAL"] →
   ∃ msg,
     task_selection mnist fashion_mnist cifar10 cifar100 task bs
       = Raise (ValueError msg)) ∧
  (∀ tr te ftr fte,
     task = "Sequential" →
     mnist bs = Ok (tr, te) → fashion_mnist bs = Ok (ftr, fte) →
     (rows (data (dataset tr)) = [] ∨ targets (dataset tr) = [] →
      task_selection mnist fashion_mnist cifar10 cifar100 task bs
        = Raise IndexError) ∧
     (rows (data (dataset tr)) ≠ [] → targets (dataset tr) ≠ [] →
      ∃ classes,
        task_selection mnist fashion_mnist cifar10 cifar100 task bs
          = Ok ([tr; ftr], [te; fte], item_shape (data (dataset tr)),
                length classes) ∧
        NoDup classes ∧ 0 < length classes ∧
        ∀ y, y ∈ classes ↔ y ∈ targets (dataset tr))).
Proof.
  split.
  - intros Hnot. unfold task_selection.
    repeat (case_bool_decide as H;
            [exfalso; apply Hnot; subst task; set_solver|clear H]).
    simpl. eauto.
  - intros tr te ftr fte -> Hm Hf. unfold task_selection.
    rewrite bool_decide_eq_true_2 by done. rewrite Hm. simpl.
    rewrite Hf. simpl. unfold getitem_at. split.
    + intros [Hr|Ht].
      * by rewrite Hr.
      * rewrite Ht. by destruct (rows (data (dataset tr)) !! 0).
    + intros Hr Ht.
      destruct (rows (data (dataset tr))) as [|r rs]; [done|].
      destruct (targets (dataset tr)) as [|y ys] eqn:Hys; [done|].
      simpl. exists (remove_dups (y :: ys)).
      split; [done|]. split; [apply NoDup_remove_dups|]. split.
      * assert (y ∈ remove_dups (y :: ys)) as Hin
          by (apply elem_of_remove_dups; by left).
        destruct (remove_dups (y :: ys)); [by apply elem_of_nil in Hin|].
        simpl. lia.
      * intros y0. apply elem_of_remove_dups.
Qed.

End LoadingFacts.

Lemma batching_test_loader_single_batch_witness :
  ∃ train test,
    batching (λ y : Z, y) (λ x : Z, x) (λ _ _ _ _, Ok ())
             (Loading 0 "cpu" false) (data (synthetic 10))
             (targets (synthetic 10)) (data (synthetic 4))
             (targets (synthetic 4)) 3
      = Ok (Gpu train, Gpu test) ∧
    batch_size train = 3 ∧ drop_last train = true ∧
    ∃ ld' bt,
      traverse 2 [3; 2; 1; 0] test = Some (ld', Ok [bt]) ∧
      getitem (dataset test) [3; 2; 1; 0] = Ok bt ∧ batch_len bt = 4.
Proof.
  destruct (batching_test_loader_single_batch (λ y : Z, y) (λ x : Z, x)
              (λ _ _ _ _, Ok ()) (Loading 0 "cpu" false)
              (data (synthetic 10)) (data (synthetic 4))
              (targets (synthetic 10)) (targets (synthetic 4)) 3
              eq_refl eq_refl)
    as (train & test & Hb & Hbs & _ & Hdl & _ & Htr).
  exists train, test. split; [exact Hb|]. split; [exact Hbs|].
  split; [exact Hdl|].
  destruct (Htr [3; 2; 1; 0] 0 (reverse_Permutation (seq 0 4)))
    as (ld' & batches & Hrun & _ & Hone).
  destruct Hone as (bt & -> & Hbt & Hbl); [done|].
  exists ld', bt. done.
Defined.

Lemma task_selection_cases_witness :
  (∃ msg,
     task_selection (load_synthetic 8 4) (load_synthetic 6 2) load_missing
                    load_missing "SVHN" 3 = Raise (ValueError msg)) ∧
  (∃ classes : list Z,
     task_selection (load_synthetic 8 4) (load_synthetic 6 2) load_missing
                    load_missing "Sequential" 3
       = Ok ([GPUDataLoader_init (synthetic 8) 3 true true;
              GPUDataLoader_init (synthetic 6) 3 true true],
             [GPUDataLoader_init (synthetic 4) 4 true true;
              GPUDataLoader_init (synthetic 2) 2 true true],
             [1], length classes) ∧
     NoDup classes ∧ 0 < length classes).
Proof.
  split.
  - apply (task_selection_cases (load_synthetic 8 4) (load_synthetic 6 2)
             load_missing load_missing "SVHN" 3).
    intros H. repeat (apply elem_of_cons in H as [H|H]; [discriminate H|]).
    by apply elem_of_nil in H.
  - destruct (task_selection_cases (load_synthetic 8 4) (load_synthetic 6 2)
                load_missing load_missing "Sequential" 3) as [_ Hseq].
    destruct (Hseq _ _ _ _ eq_refl eq_refl eq_refl) as [_ Hok].
    destruct Hok as (classes & Hts & Hnd & Hpos & _); [done..|].
    exists classes. done.
Defined.

(** * Further properties of the metaplastic optimizer *)

Section StepFacts.
Local Open Scope R_scope.

Lemma step_param_full_no_grad h p st :
  p_grad p = None → step_param_full h p st = Ok (p, st, None).
Proof. intros Hg. unfold step_param_full. by rewrite Hg. Qed.

(** X13.  A call of [step] that raises nothing keeps the groups and their
    options, and treats each parameter by its gradient: a parameter without
    a gradient is skipped, itself and its state left as they are; for a
    parameter with a gradient the step count of its state goes up by exactly
    one, from 0 when the state was still empty. *)
Theorem step_counts_updates_and_skips_no_grad
    (closure : option (optimizer → optimizer * R)) (opt opt' : optimizer)
    (loss : option R) (gi j : nat) (g : param_group) (p : param)
    (st : option param_state) :
  MetaplasticAdam_step closure opt = Ok (opt', loss) →
  param_groups (call_closure closure opt).1 !! gi = Some g →
  params g !! j = Some (p, st) →
  ∃ g',
    param_groups opt' !! gi = Some g' ∧ options g' = options g ∧
    (p_grad p = None → params g' !! j = Some (p, st)) ∧
    (∀ gr, p_grad p = Some gr →
       ∃ p' st',
         params g' !! j = Some (p', Some st') ∧
         step st' = S (from_option step 0%nat st) ∧
         shape (p_data p') = shape (p_data p)).
Proof.
  intros Hstep Hg Hslot.
  destruct (MetaplasticAdam_step_slot _ _ _ _ _ _ _ _ _ Hstep Hg Hslot)
    as (g' & p' & st' & info & Hg' & Hopt & Hslot' & Hfull).
  exists g'. split; [done|]. split; [done|]. split.
  - intros Hnone. rewrite step_param_full_no_grad in Hfull by done.
    by simplify_eq.
  - intros gr Hgr.
    destruct (step_param_full_anatomy _ _ _ _ _ _ _ Hgr Hfull)
      as (st1 & inf & -> & -> & _ & Hcount & _ & _ & _ & _ & _ & Hshape & _).
    exists p', st1. split; [done|]. split; [|done].
    rewrite Hcount. by destruct st.
Qed.

(** X14.  A sparse gradient: the loop body raises a RuntimeError for it
    whatever the options and the state are, so a call of [step] on an
    optimizer that holds a parameter with a sparse gradient never returns
    normally. *)
Theorem step_rejects_sparse_gradient
    (closure : option (optimizer → optimizer * R)) (opt : optimizer)
    (gi j : nat) (g : param_group) (p : param) (st : option param_state)
    (gr : gradient) :
  param_groups (call_closure closure opt).1 !! gi = Some g →
  params g !! j = Some (p, st) →
  p_grad p = Some gr → is_sparse gr = true →
  (∀ h st0, ∃ msg, step_param_full h p st0 = Raise (RuntimeError msg)) ∧
  ∃ e, MetaplasticAdam_step closure opt = Raise e.
Proof.
  intros Hg Hslot Hgr Hsp.
  assert (∀ h st0, ∃ msg, step_param_full h p st0 = Raise (RuntimeError msg))
    as Hbody.
  { intros h st0. unfold step_param_full. rewrite Hgr, Hsp. eauto. }
  split; [exact Hbody|].
  destruct (MetaplasticAdam_step closure opt) as [[opt' loss]|e] eqn:Hstep;
    [|eauto].
  destruct (MetaplasticAdam_step_slot _ _ _ _ _ _ _ _ _ Hstep Hg Hslot)
    as (g' & p' & st' & info & _ & _ & _ & Hfull).
  destruct (Hbody (options g) st) as [msg Hmsg]. congruence.
Qed.

(** X15.  Turning the AMS variant on for a parameter whose state was
    allocated without it raises a KeyError: the state has no
    [max_exp_avg_sq].  Turning it off for a parameter whose state was
    allocated with it raises nothing (betas as the constructor accepts
    them) and leaves the stored maximum as it is. *)
Theorem amsgrad_enabled_late_raises_KeyError (h1 h2 : hyper) (p1 p1' p2 : param)
    (st1 : param_state) (inf1 : step_info) (gr2 : gradient) :
  step_param_full h1 p1 None = Ok (p1', Some st1, Some inf1) →
  p_grad p2 = Some gr2 → is_sparse gr2 = false →
  (amsgrad h1 = false → amsgrad h2 = true →
   step_param_full h2 p2 (Some st1) = Raise (KeyError "max_exp_avg_sq")) ∧
  (amsgrad h1 = true → amsgrad h2 = false →
   0 <= (betas h2).1 < 1 → 0 <= (betas h2).2 < 1 →
   ∃ p2' st2 inf2,
     step_param_full h2 p2 (Some st1) = Ok (p2', Some st2, Some inf2) ∧
     max_exp_avg_sq st2 = max_exp_avg_sq st1).
Proof.
  intros Hfirst Hg2 Hs2.
  assert (max_exp_avg_sq st1 = None ↔ amsgrad h1 = false) as Hmx.
  { destruct (p_grad p1) as [gr1|] eqn:Hg1;
      [|by rewrite step_param_full_no_grad in Hfirst].
    destruct (step_param_full_anatomy _ _ _ _ _ _ _ Hg1 Hfirst)
      as (s1 & i1 & [= <-] & _ & _ & _ & _ & _ & Hden & _).
    destruct (amsgrad h1) eqn:Hams1.
    - destruct Hden as (mx0 & _ & -> & _). done.
    - destruct Hden as [-> _]. simpl. by rewrite Hams1. }
  split.
  - intros H1 H2. apply Hmx in H1.
    unfold step_param_full. by rewrite Hg2, Hs2, H2, H1.
  - intros H1 H2 Hb1 Hb2.
    destruct (step_param_full_returns h2 p2 (Some st1) gr2 Hg2 Hs2)
      as (p2' & st2 & inf2 & Hsecond); [by rewrite H2|done|done|].
    exists p2', st2, inf2. split; [done|].
    destruct (step_param_full_anatomy _ _ _ _ _ _ _ Hg2 Hsecond)
      as (s2 & i2 & [= <-] & _ & _ & _ & _ & _ & Hden & _).
    rewrite H2 in Hden. by destruct Hden as [-> _].
Qed.

Lemma list_eq_Some {X} (l k : list X) :
  (∀ i x, l !! i = Some x ↔ k !! i = Some x) → l = k.
Proof.
  intros H. apply list_eq. intros i.
  destruct (l !! i) as [x|] eqn:Hl.
  - symmetry. by apply H.
  - destruct (k !! i) as [y|] eqn:Hk; [|done].
    apply H in Hk. congruence.
Qed.

Lemma tanh_0 : tanh 0 = 0.
Proof. unfold tanh. rewrite sinh_0. unfold Rdiv. ring. Qed.

(** X17.  With [metaplasticity = 0] the decay factor is 1 and the optimizer
    is plain Adam for a parameter of any number of dimensions: the pass
    decays the two moments with the gradient (after the weight decay),
    takes [sqrt(exp_avg_sq) + eps] as denominator (the running maximum in
    the place of [exp_avg_sq] with the AMS variant), and replaces the
    parameter by
    [param - lr * sqrt(1 - beta2^t) / (1 - beta1^t) * exp_avg / denom],
    [t] the new step count: the update of a bias.  (Arithmetic is that of
    the real numbers.) *)
Theorem zero_metaplasticity_is_plain_adam (h : hyper) (p p' : param)
    (st : option param_state) (st' : param_state) (inf : step_info)
    (gr : gradient) :
  metaplasticity h = 0 → p_grad p = Some gr →
  step_param_full h p st = Ok (p', Some st', Some inf) →
  step st' = S (from_option step 0%nat st) ∧
  exp_avg st' =
    zip_with (λ a g, a * (betas h).1 + (1 - (betas h).1) * g)
             (exp_avg (state_or_fresh h p st)) (decayed_grad h p gr) ∧
  exp_avg_sq st' =
    zip_with (λ a g, a * (betas h).2 + (1 - (betas h).2) * (g * g))
             (exp_avg_sq (state_or_fresh h p st)) (decayed_grad h p gr) ∧
  (amsgrad h = true →
   ∃ mx0,
     max_exp_avg_sq (state_or_fresh h p st) = Some mx0 ∧
     max_exp_avg_sq st' = Some (zip_with Rmax mx0 (exp_avg_sq st'))) ∧
  denom inf =
    (λ x, sqrt x + eps h)
      <$> (if amsgrad h
           then default [] (max_exp_avg_sq st')
           else exp_avg_sq st') ∧
  values (p_data p') =
    addcdiv (values (p_data p)) (- bias_corrected_step_size h (step st'))
            (exp_avg st') (denom inf).
Proof.
  intros Hmeta Hgr Hstep.
  destruct (step_param_full_anatomy _ _ _ _ _ _ _ Hgr Hstep)
    as (st1 & inf1 & [= <-] & [= <-] & _ & Hcount & Hm & Hv & Hden & Hss & _
        & _ & Hval & Hmom & _).
  split; [rewrite Hcount; by destruct st|].
  split; [done|]. split; [done|].
  split.
  { intros Hams. rewrite Hams in Hden.
    destruct Hden as (mx0 & Hmx0 & Hmx & _). by exists mx0. }
  split.
  { destruct (amsgrad h).
    - destruct Hden as (mx0 & _ & -> & ->). done.
    - by destruct Hden as [_ ->]. }
  unfold applied_momentum in Hmom.
  assert (∀ i u, momentum inf !! i = Some u →
                 exp_avg st' !! i = Some u) as Hfwd.
  { intros i u. rewrite Hmom. case_decide; [done|].
    rewrite metaplastic_momentum_lookup.
    intros (w & a & _ & Ha & ->). rewrite Hmeta, Rmult_0_l, tanh_0.
    rewrite Ha. f_equal. case_decide; ring. }
  assert (∀ i w a, values (p_data p) !! i = Some w →
                   exp_avg st' !! i = Some a →
                   momentum inf !! i = Some a) as Hbwd.
  { intros i w a Hw Ha. rewrite Hmom. case_decide; [done|].
    apply metaplastic_momentum_lookup. exists w, a.
    split; [done|]. split; [done|].
    rewrite Hmeta, Rmult_0_l, tanh_0. case_decide; ring. }
  rewrite Hval. apply list_eq_Some. intros i x.
  rewrite !addcdiv_lookup. unfold bias_corrected_step_size.
  rewrite <- Hss. split.
  - intros (w & u & d & Hw & Hu & Hd & ->). exists w, u, d.
    split; [done|]. split; [by apply Hfwd|]. done.
  - intros (w & a & d & Hw & Ha & Hd & ->). exists w, a, d.
    split; [done|]. split; [by eapply Hbwd|]. done.
Qed.

Lemma length_where_ (c : list bool) (a b : list R) :
  length (where_ c a b) = (length c `min` (length a `min` length b))%nat.
Proof. unfold where_. by rewrite length_zip_with, length_zip. Qed.

Lemma length_addcdiv (t : list R) (c : R) (a b : list R) :
  length (addcdiv t c a b)
    = (length t `min` (length a `min` length b))%nat.
Proof. unfold addcdiv. by rewrite !length_zip_with. Qed.

(** X18.  Sizes are kept.  When the gradient and the tensors of the state
    have as many elements as the parameter, a pass of the loop body returns a
    parameter of the same shape and the same number of elements, and a
    state, a gradient and a denominator of that many elements again. *)
Theorem step_keeps_sizes (h : hyper) (p p' : param)
    (st : option param_state) (st' : param_state) (inf : step_info)
    (gr : gradient) :
  p_grad p = Some gr →
  length (g_values gr) = length (values (p_data p)) →
  (∀ s, st = Some s →
     length (exp_avg s) = length (values (p_data p)) ∧
     length (exp_avg_sq s) = length (values (p_data p)) ∧
     ∀ mx, max_exp_avg_sq s = Some mx →
           length mx = length (values (p_data p))) →
  step_param_full h p st = Ok (p', Some st', Some inf) →
  shape (p_data p') = shape (p_data p) ∧
  length (values (p_data p')) = length (values (p_data p)) ∧
  length (exp_avg st') = length (values (p_data p)) ∧
  length (exp_avg_sq st') = length (values (p_data p)) ∧
  (∀ mx, max_exp_avg_sq st' = Some mx →
         length mx = length (values (p_data p))) ∧
  length (denom inf) = length (values (p_data p)) ∧
  (∃ gr', p_grad p' = Some gr' ∧
          length (g_values gr') = length (values (p_data p))).
Proof.
  intros Hgr Hlg Hst Hstep.
  destruct (step_param_full_anatomy _ _ _ _ _ _ _ Hgr Hstep)
    as (st1 & inf1 & [= <-] & [= <-] & _ & _ & Hm & Hv & Hden & _ & Hg'
        & Hshape & Hval & _).
  destruct (step_param_full_inv _ _ _ _ _ _ _ Hgr Hstep)
    as (st2 & inf2 & [= <-] & [= <-] & _ & _ & _ & Hmom).
  set (n := length (values (p_data p))) in *.
  assert (length (decayed_grad h p gr) = n) as Hdg.
  { unfold decayed_grad. destruct (decide (weight_decay h ≠ 0)); [|done].
    rewrite length_zip_with. lia. }
  assert (length (exp_avg (state_or_fresh h p st)) = n ∧
          length (exp_avg_sq (state_or_fresh h p st)) = n ∧
          ∀ mx, max_exp_avg_sq (state_or_fresh h p st) = Some mx →
                length mx = n) as (Hm0 & Hv0 & Hmx0).
  { destruct st as [s|]; simpl; [by apply Hst|].
    unfold zeros_like. rewrite !length_replicate.
    split; [done|]. split; [done|]. intros mx.
    destruct (amsgrad h); [|done]. intros [= <-].
    by rewrite length_replicate. }
  assert (length (exp_avg st') = n) as Hm1
    by (rewrite Hm, length_zip_with; lia).
  assert (length (exp_avg_sq st') = n) as Hv1
    by (rewrite Hv, length_zip_with; lia).
  assert (length (denom inf) = n ∧
          ∀ mx, max_exp_avg_sq st' = Some mx → length mx = n)
    as [Hd1 Hmx1].
  { destruct (amsgrad h).
    - destruct Hden as (mx0 & Hmx & Hmx' & ->).
      specialize (Hmx0 _ Hmx).
      rewrite length_fmap, length_zip_with. split; [lia|].
      intros mx. rewrite Hmx'. intros [= <-]. rewrite length_zip_with. lia.
    - destruct Hden as [Hsame ->]. rewrite length_fmap. split; [done|].
      intros mx. rewrite Hsame. apply Hmx0. }
  assert (length (momentum inf) = n) as Hmom1.
  { rewrite Hmom. destruct (decide (dim (p_data p) = 1%nat)); [done|].
    rewrite length_where_, !length_zip_with, !length_fmap. lia. }
  split; [done|]. split; [rewrite Hval, length_addcdiv; lia|].
  split; [done|]. split; [done|]. split; [done|]. split; [done|].
  eexists. split; [exact Hg'|done].
Qed.

End StepFacts.

Section StepWitnesses.
Local Open Scope R_scope.

Lemma step_counts_updates_and_skips_no_grad_witness :
  ∃ opt' loss g',
    MetaplasticAdam_step None optimizer1 = Ok (opt', loss) ∧
    param_groups opt' !! 0%nat = Some g' ∧
    params g' !! 1%nat = Some (frozen0, None) ∧
    ∃ p' st', params g' !! 0%nat = Some (p', Some st') ∧ step st' = 1%nat.
Proof.
  assert (0 <= 9 / 10 < 1 ∧ 0 <= 999 / 1000 < 1) as [Hb1 Hb2] by lra.
  destruct (step_param_returns (default_options false) weight0 None
              (Gradient [1; 1] false) eq_refl eq_refl
              (λ H, or_introl eq_refl) Hb1 Hb2) as (pw & sw & Hw).
  assert (MetaplasticAdam_step None optimizer1
          = Ok (Optimizer [Group (default_options false)
                                 [(pw, Some sw); (frozen0, None)]], None))
    as E.
  { apply MetaplasticAdam_step_one_group.
    change (mapM (step_param (default_options false))
                 [(weight0, None); (frozen0, None)])
      with (x ← step_param (default_options false) (weight0, None);
            k ← (y ← step_param (default_options false) (frozen0, None);
                 k0 ← mret []; mret (y :: k0));
            mret (x :: k)).
    rewrite Hw. reflexivity. }
  destruct (step_counts_updates_and_skips_no_grad None optimizer1 _ _
              0 1 _ frozen0 None E eq_refl eq_refl)
    as (g' & Hg' & _ & Hskip & _).
  destruct (step_counts_updates_and_skips_no_grad None optimizer1 _ _
              0 0 _ weight0 None E eq_refl eq_refl)
    as (g'' & Hg'' & _ & _ & Hcount).
  assert (g'' = g') as -> by congruence.
  destruct (Hcount _ eq_refl) as (p' & st' & Hslot & Hstep & _).
  eexists _, _, g'. split; [exact E|]. split; [exact Hg'|].
  split; [exact (Hskip eq_refl)|]. exists p', st'. done.
Defined.

Lemma step_rejects_sparse_gradient_witness :
  p_grad sparse0 = Some (Gradient [1; 1] true) ∧
  ∃ e, MetaplasticAdam_step None optimizer2 = Raise e.
Proof.
  split; [reflexivity|].
  apply (step_rejects_sparse_gradient None optimizer2 0 1
           (Group (default_options false) [(weight0, None); (sparse0, None)])
           sparse0 None (Gradient [1; 1] true));
    reflexivity.
Defined.

Lemma amsgrad_enabled_late_raises_KeyError_witness :
  (∃ p1 st1 inf1,
     step_param_full (default_options false) weight0 None
       = Ok (p1, Some st1, Some inf1) ∧
     step_param_full (default_options true) weight0 (Some st1)
       = Raise (KeyError "max_exp_avg_sq")) ∧
  (∃ p1 st1 inf1 p2 st2 inf2,
     step_param_full (default_options true) weight0 None
       = Ok (p1, Some st1, Some inf1) ∧
     step_param_full (default_options false) weight0 (Some st1)
       = Ok (p2, Some st2, Some inf2) ∧
     max_exp_avg_sq st2 = max_exp_avg_sq st1).
Proof.
  assert (0 <= 9 / 10 < 1 ∧ 0 <= 999 / 1000 < 1) as [Hb1 Hb2] by lra.
  split.
  - destruct (step_param_full_returns (default_options false) weight0 None
                (Gradient [1; 1] false) eq_refl eq_refl
                (λ H, or_introl eq_refl) Hb1 Hb2) as (p1 & st1 & inf1 & E1).
    exists p1, st1, inf1. split; [exact E1|].
    destruct (amsgrad_enabled_late_raises_KeyError (default_options false)
                (default_options true) weight0 p1 weight0 st1 inf1
                (Gradient [1; 1] false) E1 eq_refl eq_refl) as [Hlate _].
    exact (Hlate eq_refl eq_refl).
  - destruct (step_param_full_returns (default_options true) weight0 None
                (Gradient [1; 1] false) eq_refl eq_refl
                (λ H, or_introl eq_refl) Hb1 Hb2) as (p1 & st1 & inf1 & E1).
    destruct (amsgrad_enabled_late_raises_KeyError (default_options true)
                (default_options false) weight0 p1 weight0 st1 inf1
                (Gradient [1; 1] false) E1 eq_refl eq_refl) as [_ Hoff].
    destruct (Hoff eq_refl eq_refl Hb1 Hb2)
      as (p2 & st2 & inf2 & Hsecond & Hmax).
    exists p1, st1, inf1, p2, st2, inf2.
    split; [exact E1|]. split; [exact Hsecond | exact Hmax].
Defined.

Lemma zero_metaplasticity_is_plain_adam_witness :
  ∃ p1 st1 inf1,
    step_param_full plain_options weight0 None
      = Ok (p1, Some st1, Some inf1) ∧
    step st1 = 1%nat ∧
    denom inf1 = (λ x, sqrt x + eps plain_options) <$> exp_avg_sq st1 ∧
    values (p_data p1) =
      addcdiv (values (p_data weight0))
              (- bias_corrected_step_size plain_options (step st1))
              (exp_avg st1) (denom inf1).
Proof.
  assert (0 <= 9 / 10 < 1 ∧ 0 <= 999 / 1000 < 1) as [Hb1 Hb2] by lra.
  destruct (step_param_full_returns plain_options weight0 None
              (Gradient [1; 1] false) eq_refl eq_refl
              (λ H, or_introl eq_refl) Hb1 Hb2) as (p1 & st1 & inf1 & E1).
  exists p1, st1, inf1. split; [exact E1|].
  destruct (zero_metaplasticity_is_plain_adam plain_options weight0 p1 None
              st1 inf1 (Gradient [1; 1] false) eq_refl eq_refl E1)
    as (Hcount & _ & _ & _ & Hden & Hval).
  split; [exact Hcount|]. split; [exact Hden | exact Hval].
Defined.

Lemma step_keeps_sizes_witness :
  ∃ p1 st1 inf1,
    step_param_full (default_options true) weight0 None
      = Ok (p1, Some st1, Some inf1) ∧
    shape (p_data p1) = [1; 2]%nat ∧
    length (values (p_data p1)) = 2%nat ∧
    length (exp_avg st1) = 2%nat ∧ length (denom inf1) = 2%nat.
Proof.
  assert (0 <= 9 / 10 < 1 ∧ 0 <= 999 / 1000 < 1) as [Hb1 Hb2] by lra.
  destruct (step_param_full_returns (default_options true) weight0 None
              (Gradient [1; 1] false) eq_refl eq_refl
              (λ H, or_introl eq_refl) Hb1 Hb2) as (p1 & st1 & inf1 & E1).
  exists p1, st1, inf1. split; [exact E1|].
  destruct (step_keeps_sizes (default_options true) weight0 p1 None st1 inf1
              (Gradient [1; 1] false) eq_refl eq_refl)
    as (Hs & Hv & Hm & _ & _ & Hd & _);
    [intros s Hs; discriminate Hs|exact E1|].
  done.
Defined.

End StepWitnesses.

(** * Further properties of the trainers *)

Section PredictFacts.
Local Open Scope R_scope.
Context {Model input output OptParams Criterion Device Scheduler : Type}.
Context (forward : Model → input → output).
Context (eval_mode : Model → Model).
Context (vector_to_parameters : list R → Model → Model).
Context (bernoulli : nat → list R → list R).
Implicit Types (self : gmap string (@attr Model Criterion Device Scheduler)).
Implicit Types (kwargs : gmap string (@kwarg Scheduler)).

Lemma monte_carlo_prediction_length (noise : list (list R)) :
  ∀ m inputs,
    length (monte_carlo_prediction forward vector_to_parameters m inputs
                                   noise).2 = length noise.
Proof.
  induction noise as [|n noise IH]; intros m inputs; [done|]. simpl.
  specialize (IH (vector_to_parameters ((λ x, 2 * x - 1) <$> n) m) inputs).
  destruct (monte_carlo_prediction _ _ _ _ noise). simpl in *. by rewrite IH.
Qed.

(** Every prediction is a forward pass on a model into which the noise
    vector of its rank, mapped from {0,1} to {-1,+1}, was just written. *)
Lemma monte_carlo_prediction_lookup (noise : list (list R)) :
  ∀ m inputs k out,
    (monte_carlo_prediction forward vector_to_parameters m inputs noise).2
      !! k = Some out →
    ∃ n mk, noise !! k = Some n ∧
            out = forward (vector_to_parameters ((λ x, 2 * x - 1) <$> n) mk)
                          inputs.
Proof.
  induction noise as [|n noise IH]; intros m inputs k out; [done|]. simpl.
  specialize (IH (vector_to_parameters ((λ x, 2 * x - 1) <$> n) m) inputs).
  destruct (monte_carlo_prediction _ _ _ _ noise) as [m2 preds]. simpl in *.
  destruct k as [|k]; simpl.
  - intros [= <-]. by exists n, m.
  - intros Hk. by apply IH.
Qed.

Lemma mapM_sample_noise (o : optim) (lam : list R) (ks : list nat) :
  state o !! "lambda" = Some lam →
  mapM (sample_noise bernoulli o) ks
    = Ok ((λ k, bernoulli k ((λ x, sigmoid (2 * x)) <$> lam)) <$> ks).
Proof.
  intros Hlam. apply mapM_result_Ok, Forall2_fmap_r, Forall_Forall2_diag.
  apply Forall_forall. intros k _.
  unfold sample_noise, state_tensor. by rewrite Hlam.
Qed.

(** X21.  [predict] with [n_samples >= 1] on an optimizer that has
    [lambda]: it returns exactly [n_samples] predictions, whether the
    optimizer has [mu] or not.  Prediction [k] is a forward pass on the
    model into which [2*b - 1] was just written, [b] the [k]-th Bernoulli
    draw with the probabilities [sigmoid(2*lambda)].  The model is handed
    back as the last write left it: [predict] does not restore the
    parameters it replaced. *)
Theorem predict_returns_one_prediction_per_sample self (m : Model)
    (o : optim) (lam : list R) (inputs : input) (n_samples : Z) :
  self !! "model" = Some (AModel m) →
  self !! "optimizer" = Some (AOptimizer o) →
  state o !! "lambda" = Some lam →
  (0 < n_samples)%Z →
  ∃ m' preds,
    predict forward eval_mode vector_to_parameters bernoulli self inputs
            n_samples
      = (<["model" := AModel m']> self, Ok preds) ∧
    length preds = Z.to_nat n_samples ∧
    (m', preds) =
      monte_carlo_prediction forward vector_to_parameters (eval_mode m)
        inputs
        ((λ k, bernoulli k ((λ x, sigmoid (2 * x)) <$> lam))
           <$> seq 0 (Z.to_nat n_samples)) ∧
    ∀ k out, preds !! k = Some out →
      ∃ mk,
        out = forward
                (vector_to_parameters
                   ((λ x, 2 * x - 1)
                      <$> bernoulli k ((λ x, sigmoid (2 * x)) <$> lam)) mk)
                inputs.
Proof.
  intros Hm Ho Hlam Hn. unfold predict. rewrite Hm.
  rewrite lookup_insert_ne by done. rewrite Ho.
  rewrite (mapM_sample_noise o lam) by done. simpl.
  rewrite bool_decide_eq_false_2
    by (rewrite length_fmap, length_seq; lia).
  pose proof (monte_carlo_prediction_length
                ((λ k, bernoulli k ((λ x, sigmoid (2 * x)) <$> lam))
                   <$> seq 0 (Z.to_nat n_samples)) (eval_mode m) inputs)
    as Hlen.
  pose proof (monte_carlo_prediction_lookup
                ((λ k, bernoulli k ((λ x, sigmoid (2 * x)) <$> lam))
                   <$> seq 0 (Z.to_nat n_samples)) (eval_mode m) inputs)
    as Hlook.
  destruct (monte_carlo_prediction _ _ _ _ _) as [m' preds]. simpl in *.
  exists m', preds. rewrite insert_insert_eq. split; [done|].
  split; [by rewrite Hlen, length_fmap, length_seq|]. split; [done|].
  intros k out Hk. destruct (Hlook k out Hk) as (n & mk & Hnk & ->).
  rewrite list_lookup_fmap in Hnk.
  destruct (seq 0 (Z.to_nat n_samples) !! k) as [k'|] eqn:Hseq; [|done].
  apply lookup_seq in Hseq as [-> _]. simpl in Hnk. injection Hnk as <-.
  by exists mk.
Qed.

(** X22.  The edges of [predict].  A negative [n_samples] is not rejected:
    it behaves as 0.  When the tensor the call needs is missing from the
    state of the optimizer ([lambda] for a positive [n_samples], [mu]
    otherwise) a TypeError is raised after the model was put in evaluation
    mode, and no parameter is written.  Without a model on the trainer an
    AttributeError is raised and the trainer is as before. *)
Theorem predict_edges self (inputs : input) (n_samples : Z) :
  ((n_samples < 0)%Z →
   predict forward eval_mode vector_to_parameters bernoulli self inputs
           n_samples
     = predict forward eval_mode vector_to_parameters bernoulli self inputs
               0) ∧
  (∀ m o,
     self !! "model" = Some (AModel m) →
     self !! "optimizer" = Some (AOptimizer o) →
     state o !! (if bool_decide (0 < n_samples)%Z then "lambda" else "mu")
       = None →
     ∃ msg,
       predict forward eval_mode vector_to_parameters bernoulli self inputs
               n_samples
         = (<["model" := AModel (eval_mode m)]> self,
            Raise (TypeError msg))) ∧
  (self !! "model" = None →
   ∃ a,
     predict forward eval_mode vector_to_parameters bernoulli self inputs
             n_samples
       = (self, Raise (AttributeError a))).
Proof.
  split; [|split].
  - intros Hn. unfold predict.
    by replace (Z.to_nat n_samples) with (Z.to_nat 0) by lia.
  - intros m o Hm Ho Hmissing. unfold predict. rewrite Hm.
    rewrite lookup_insert_ne by done. rewrite Ho.
    case_bool_decide as Hn.
    + destruct (Z.to_nat n_samples) as [|k] eqn:Hk; [lia|].
      assert (∀ i, sample_noise bernoulli o i
                   = Raise (TypeError "unsupported operand type: dict"))
        as Hraise
        by (intros i; unfold sample_noise, state_tensor;
            by rewrite Hmissing).
      simpl. rewrite Hraise. simpl. eauto.
    + replace (Z.to_nat n_samples) with 0%nat by lia. simpl.
      unfold map_noise, state_tensor. rewrite Hmissing. simpl. eauto.
  - intros Hm. unfold predict. rewrite Hm. eauto.
Qed.

End PredictFacts.

Section ConstructorFacts.
Context {Model OptParams Criterion Device Scheduler : Type}.
Implicit Types (self : gmap string (@attr Model Criterion Device Scheduler)).
Implicit Types (kwargs : gmap string (@kwarg Scheduler)).

(** What a trainer built by [GPUTrainer.__init__] holds. *)
Lemma GPUTrainer_init_post self self' (model : Model)
    (optimizer : Model → OptParams → result optim)
    (optimizer_parameters : OptParams) (criterion : Criterion)
    (device : Device) kwargs :
  GPUTrainer_init self model optimizer optimizer_parameters criterion device
                  kwargs = Ok self' →
  ∃ o,
    optimizer model optimizer_parameters = Ok o ∧
    self' !! "model" = Some (AModel model) ∧
    self' !! "optimizer" = Some (AOptimizer o) ∧
    self' !! "training_accuracy" = Some (AHistory []) ∧
    self' !! "testing_accuracy" = Some (AHistory []) ∧
    self' !! "mean_testing_accuracy" = Some (AHistory []) ∧
    (kwargs !! "scheduler" = None →
     self' !! "scheduler" = self !! "scheduler") ∧
    (is_Some (kwargs !! "scheduler") →
     ∃ s, self' !! "scheduler" = Some (AScheduler s)) ∧
    ∀ k, k ∉ ["model"; "optimizer"; "criterion"; "device";
              "training_accuracy"; "testing_accuracy";
              "mean_testing_accuracy"; "scheduler"] →
         self' !! k = self !! k.
Proof.
  unfold GPUTrainer_init.
  destruct (optimizer model optimizer_parameters) as [o|]; [|done]. simpl.
  assert (∀ k : string,
            k ∉ ["model"; "optimizer"; "criterion"; "device";
                 "training_accuracy"; "testing_accuracy";
                 "mean_testing_accuracy"; "scheduler"] →
            k ≠ "model" ∧ k ≠ "optimizer" ∧ k ≠ "criterion" ∧
            k ≠ "device" ∧ k ≠ "training_accuracy" ∧
            k ≠ "testing_accuracy" ∧ k ≠ "mean_testing_accuracy" ∧
            k ≠ "scheduler") as Hnames.
  { intros k Hk. repeat split; intros ->; apply Hk; set_solver. }
  destruct (kwargs !! "scheduler") as [sch|] eqn:Hsch.
  - destruct (kwargs !! "scheduler_parameters") as [sp|]; [|done].
    destruct sch as [|cls]; [done|]. destruct sp as [[| | |d]|]; try done.
    destruct (cls o d) as [s|]; [|done]. simpl. intros [= <-].
    exists o. split; [done|].
    do 5 (split; [by simplify_map_eq|]). split; [done|].
    split; [intros _; exists s; by simplify_map_eq|].
    intros k Hk. destruct (Hnames k Hk) as (?&?&?&?&?&?&?&?).
    by rewrite !lookup_insert_ne by done.
  - intros [= <-]. exists o. split; [done|].
    do 5 (split; [by simplify_map_eq|]).
    split; [intros _; by simplify_map_eq|].
    split; [by intros [? ?]|].
    intros k Hk. destruct (Hnames k Hk) as (?&?&?&?&?&?&?&?).
    by rewrite !lookup_insert_ne by done.
Qed.

(** X23.  The outcomes of [GPUTrainer.__init__].  An exception of the
    optimizer class is the exception of the constructor.  When the optimizer
    is built and a scheduler is given without [scheduler_parameters], a
    KeyError is raised.  When the constructor returns, the trainer holds the
    model, the optimizer the class returned and three empty accuracy
    histories; it has a scheduler if one was given (else its attribute
    [scheduler] is as before); and every attribute outside the eight the
    constructor writes is as before. *)
Theorem GPUTrainer_init_outcomes self (model : Model)
    (optimizer : Model → OptParams → result optim)
    (optimizer_parameters : OptParams) (criterion : Criterion)
    (device : Device) kwargs :
  (∀ e, optimizer model optimizer_parameters = Raise e →
     GPUTrainer_init self model optimizer optimizer_parameters criterion
                     device kwargs = Raise e) ∧
  (∀ o, optimizer model optimizer_parameters = Ok o →
     is_Some (kwargs !! "scheduler") →
     kwargs !! "scheduler_parameters" = None →
     GPUTrainer_init self model optimizer optimizer_parameters criterion
                     device kwargs = Raise (KeyError "scheduler_parameters")) ∧
  (∀ self',
     GPUTrainer_init self model optimizer optimizer_parameters criterion
                     device kwargs = Ok self' →
     ∃ o,
       optimizer model optimizer_parameters = Ok o ∧
       self' !! "model" = Some (AModel model) ∧
       self' !! "optimizer" = Some (AOptimizer o) ∧
       self' !! "training_accuracy" = Some (AHistory []) ∧
       self' !! "testing_accuracy" = Some (AHistory []) ∧
       self' !! "mean_testing_accuracy" = Some (AHistory []) ∧
       (kwargs !! "scheduler" = None →
        self' !! "scheduler" = self !! "scheduler") ∧
       (is_Some (kwargs !! "scheduler") →
        ∃ s, self' !! "scheduler" = Some (AScheduler s)) ∧
       ∀ k, k ∉ ["model"; "optimizer"; "criterion"; "device";
                 "training_accuracy"; "testing_accuracy";
                 "mean_testing_accuracy"; "scheduler"] →
            self' !! k = self !! k).
Proof.
  split; [|split].
  - intros e He. unfold GPUTrainer_init. by rewrite He.
  - intros o Ho [sch Hsch] Hsp. unfold GPUTrainer_init.
    rewrite Ho. simpl. by rewrite Hsch, Hsp.
  - intros self'. apply GPUTrainer_init_post.
Qed.





End ConstructorFacts.

Section ConstructAndPredict.
Local Open Scope R_scope.
Context {Model input output OptParams Criterion Device Scheduler : Type}.
Context (forward : Model → input → output).
Context (eval_mode : Model → Model).
Context (vector_to_parameters : list R → Model → Model).
Context (bernoulli : nat → list R → list R).
Implicit Types (self : gmap string (@attr Model Criterion Device Scheduler)).
Implicit Types (kwargs : gmap string (@kwarg Scheduler)).

(** X25.  Construction and prediction together: on a trainer that
    [BayesTrainer.__init__] returned, with an optimizer whose state has
    [mu], [predict] with [n_samples = 0] returns the one prediction of the
    model given to the constructor, in evaluation mode, with [+1] written
    where [mu] is positive and [-1] elsewhere. *)
Theorem constructed_trainer_predicts self self' (model : Model)
    (optimizer : Model → OptParams → result optim)
    (optimizer_parameters : OptParams) (criterion : Criterion)
    (device : Device) kwargs (o : optim) (mu : list R) (inputs : input) :
  BayesTrainer_init self model optimizer optimizer_parameters criterion
                    device kwargs = Ok self' →
  optimizer model optimizer_parameters = Ok o →
  state o !! "mu" = Some mu →
  (predict forward eval_mode vector_to_parameters bernoulli self' inputs 0).2
    = Ok [forward
            (vector_to_parameters
               ((λ x, if decide (0 < x) then 1 else -1) <$> mu)
               (eval_mode model))
            inputs].
Proof.
  intros Hinit Ho Hmu. unfold BayesTrainer_init in Hinit.
  destruct (kwargs !! "training_parameters") as [[[z|s|l|d]|cls]|];
    try done;
    [by destruct (str_contains _ s) | by destruct (seq_contains _ l) |].
  destruct (d !! "test_mcmc_samples") as [v|]; [|done].
  destruct (GPUTrainer_init_post _ _ _ _ _ _ _ _ Hinit)
    as (o' & Ho' & Hmod & Hopt & _).
  assert (o' = o) as -> by congruence.
  by rewrite (predict_no_samples forward eval_mode vector_to_parameters
                bernoulli self' model o mu inputs 0).
Qed.

End ConstructAndPredict.

Section TrainerWitnesses.
Local Open Scope R_scope.

Lemma predict_returns_one_prediction_per_sample_witness :
  ∃ m' preds,
    predict echo_forward echo_eval echo_write echo_bernoulli trainer1 () 2
      = (<["model" := AModel m']> trainer1, Ok preds) ∧
    length preds = 2%nat.
Proof.
  destruct (predict_returns_one_prediction_per_sample echo_forward echo_eval
              echo_write echo_bernoulli trainer1 [0] (Optim {["lambda" := [0]]})
              [0] () 2 eq_refl eq_refl eq_refl eq_refl)
    as (m' & preds & Hp & Hlen & _).
  exists m', preds. split; [exact Hp | exact Hlen].
Defined.

Lemma predict_edges_witness :
  predict echo_forward echo_eval echo_write echo_bernoulli trainer0 () (-3)
    = predict echo_forward echo_eval echo_write echo_bernoulli trainer0 () 0 ∧
  (∃ msg,
     predict echo_forward echo_eval echo_write echo_bernoulli trainer0 () 1
       = (<["model" := AModel (echo_eval [0])]> trainer0,
          Raise (TypeError msg))) ∧
  (∃ a,
     predict echo_forward echo_eval echo_write echo_bernoulli
             trainer_no_model () 1
       = (trainer_no_model, Raise (AttributeError a))).
Proof.
  split; [|split].
  - destruct (predict_edges echo_forward echo_eval echo_write echo_bernoulli
                trainer0 () (-3)) as [Hneg _].
    apply Hneg. reflexivity.
  - destruct (predict_edges echo_forward echo_eval echo_write echo_bernoulli
                trainer0 () 1) as (_ & Hmissing & _).
    apply (Hmissing [0] (Optim {["mu" := [0]]})); reflexivity.
  - destruct (predict_edges echo_forward echo_eval echo_write echo_bernoulli
                trainer_no_model () 1) as (_ & _ & Hnomodel).
    apply Hnomodel. reflexivity.
Defined.

Lemma GPUTrainer_init_outcomes_witness :
  GPUTrainer_init (∅ : gmap string (@attr (list R) () () ())) [0]
                  (λ _ (_ : ()), Raise (RuntimeError "no optimizer"))
                  () () () kwargs_scheduler_only
    = Raise (RuntimeError "no optimizer") ∧
  GPUTrainer_init (∅ : gmap string (@attr (list R) () () ())) [0]
                  mu_optimizer () () () kwargs_scheduler_only
    = Raise (KeyError "scheduler_parameters") ∧
  ∃ self',
    GPUTrainer_init (∅ : gmap string (@attr (list R) () () ())) [0]
                    mu_optimizer () () () kwargs_with_samples = Ok self' ∧
    self' !! "training_accuracy" = Some (AHistory []) ∧
    self' !! "scheduler" = None.
Proof.
  split; [|split].
  - destruct (GPUTrainer_init_outcomes
                (∅ : gmap string (@attr (list R) () () ())) [0]
                (λ _ (_ : ()), Raise (RuntimeError "no optimizer"))
                () () () kwargs_scheduler_only) as [Herr _].
    apply Herr. reflexivity.
  - destruct (GPUTrainer_init_outcomes
                (∅ : gmap string (@attr (list R) () () ())) [0]
                mu_optimizer () () () kwargs_scheduler_only)
      as (_ & Hkey & _).
    apply (Hkey (Optim {["mu" := [0]]})); [reflexivity| |reflexivity].
    exists (KScheduler (λ _ _, Ok ())). reflexivity.
  - eexists. split; [reflexivity|].
    destruct (GPUTrainer_init_outcomes
                (∅ : gmap string (@attr (list R) () () ())) [0]
                mu_optimizer () () () kwargs_with_samples)
      as (_ & _ & Hpost).
    destruct (Hpost _ eq_refl) as (o & _ & _ & _ & Htr & _ & _ & Hsch & _).
    split; [exact Htr|]. rewrite Hsch by reflexivity. reflexivity.
Defined.


Lemma constructed_trainer_predicts_witness :
  ∃ self',
    BayesTrainer_init (∅ : gmap string (@attr (list R) () () ())) [0]
                      mu_optimizer () () () kwargs_with_samples = Ok self' ∧
    (predict echo_forward echo_eval echo_write echo_bernoulli self' () 0).2
      = Ok [echo_forward
              (echo_write ((λ x, if decide (0 < x) then 1 else -1) <$> [0])
                          (echo_eval [0]))
              ()].
Proof.
  eexists. split; [reflexivity|].
  apply (constructed_trainer_predicts echo_forward echo_eval echo_write
           echo_bernoulli (∅ : gmap string (@attr (list R) () () ())) _ [0]
           mu_optimizer () () () kwargs_with_samples
           (Optim {["mu" := [0]]}) [0] ()); reflexivity.
Defined.

End TrainerWitnesses.
